(** * The troll "Done" button of the todo demo: state machine and coordination

    A shallow embedding of
      - [src/hooks/useTrollBehavior.ts]      (the interaction state store),
      - [src/components/TrollButtonContext]  (the displacement registry),
      - [src/components/TrollDoneButton]     (the control facade),
      - [src/components/DoneButton]          (the fixed control),
      - [src/components/ConfirmationDialog], [src/components/TodoItem],
        [src/components/TodoList], [src/components/AddTodo] and
        [src/hooks/useTodos.ts]              (the dialog, the rows, the list
                                               and the todos themselves),
    followed by the properties the specification states about them and
    further properties read off the code.

    Modelling conventions.
      - A React state cell is a field of a record; a handler is a function
        from the rendered state to the next rendered state (React flushes a
        discrete event before the next one is delivered, so every handler
        reads the [isComplete] of the state it is applied to).
      - [Math.random()] is an explicit argument [r] of the hover handler.
      - Fields that only ever hold integers ([clickCount], [rotation],
        [dialogStage], [escapeDirection], [escapeCount]) are [Z]; a binary64
        number represents them exactly below 2^53.
      - Fields that hold fractions ([scale], the hover offset) have an
        abstract type [num] with the arithmetic the source uses.  Two
        instances are given: [float], Rocq's primitive binary64 numbers, which
        are the numbers JavaScript computes with, and [Q], exact rationals,
        the idealisation used where a property quantifies over every value
        [Math.random()] may return. *)

From Stdlib Require Import ZArith QArith Qabs Qminmax Floats List Bool Lia Lqa.
From stdpp Require Import base gmap strings.

Local Open Scope Z_scope.

(** ** JavaScript numbers *)

Class JsNumber (num : Type) : Type := {
  (** a numeric literal of the source, given by its exact decimal value *)
  num_lit : Q -> num;
  num_add : num -> num -> num;
  num_sub : num -> num -> num;
  num_mul : num -> num -> num;
  (** [Math.max] on two arguments *)
  Math_max : num -> num -> num;
}.

Definition num_of_Z {num : Type} `{JsNumber num} (z : Z) : num := num_lit (inject_Z z).

(** *** binary64 *)

Definition float_of_Z (z : Z) : float :=
  match z with
  | Z0 => PrimFloat.zero
  | Zpos _ => PrimFloat.of_uint63 (Uint63.of_Z z)
  | Zneg p => PrimFloat.opp (PrimFloat.of_uint63 (Uint63.of_Z (Zpos p)))
  end.

(** A decimal literal [p/q] denotes the double nearest to it; for numerator
    and denominator below 2^53 that is the correctly rounded quotient. *)
Definition float_lit (q : Q) : float :=
  PrimFloat.div (float_of_Z (Qnum q)) (float_of_Z (Zpos (Qden q))).

(** [Math.max(a, b)]: NaN if either argument is NaN, the larger one otherwise,
    with [+0] larger than [-0]. *)
Definition float_max (a b : float) : float :=
  if PrimFloat.is_nan a then a
  else if PrimFloat.is_nan b then b
  else if PrimFloat.ltb a b then b
  else if PrimFloat.ltb b a then a
  else if PrimFloat.get_sign a then b else a.

#[export] Instance float_JsNumber : JsNumber float := {
  num_lit := float_lit;
  num_add := PrimFloat.add;
  num_sub := PrimFloat.sub;
  num_mul := PrimFloat.mul;
  Math_max := float_max;
}.

(** *** exact rationals *)


(** ** [useTrollBehavior.ts] *)

Definition TROLL_MESSAGES : list string :=
  [ "Are you SURE?"; "Really?"; "But what if you're wrong?" ]%string.

Definition REQUIRED_CLICKS : Z := 1.
Definition ROTATION_INCREMENT : Z := 15.
Definition MAX_ESCAPES : Z := 4.

Record Offset (num : Type) : Type := mkOffset { x : num; y : num }.
Arguments mkOffset {num} _ _.
Arguments x {num} _.
Arguments y {num} _.

Record TrollState (num : Type) : Type := mkTrollState {
  clickCount : Z;
  rotation : Z;
  scale : num;
  dialogStage : Z;
  hoverEscapeOffset : Offset num;
  escapeDirection : Z;
  escapeCount : Z;
}.
Arguments mkTrollState {num} _ _ _ _ _ _ _.
Arguments clickCount {num} _.
Arguments rotation {num} _.
Arguments scale {num} _.
Arguments dialogStage {num} _.
Arguments hoverEscapeOffset {num} _.
Arguments escapeDirection {num} _.
Arguments escapeCount {num} _.

(** The two state cells of the hook: [state] and [isComplete]. *)
Record Hook (num : Type) : Type := mkHook {
  state : TrollState num;
  isComplete : bool;
}.
Arguments mkHook {num} _ _.
Arguments state {num} _.
Arguments isComplete {num} _.

(** The result of [generateEscapeOffset]. *)
Record Escape (num : Type) : Type := mkEscape {
  esc_x : num;
  esc_y : num;
  newDirection : Z;
}.
Arguments mkEscape {num} _ _ _.
Arguments esc_x {num} _.
Arguments esc_y {num} _.
Arguments newDirection {num} _.

Section Troll.
Context {num : Type} `{JsNumber num}.

Definition SCALE_DECREMENT : num := num_lit (1 # 10).
Definition MIN_SCALE : num := num_lit (1 # 2).
Definition HOVER_ESCAPE_MIN : num := num_lit 80.
Definition HOVER_ESCAPE_MAX : num := num_lit 120.
Definition TIRED_ESCAPE_MIN : num := num_lit 15.
Definition TIRED_ESCAPE_MAX : num := num_lit 25.

(** [random] is the value [Math.random()] returns in this call. *)
Definition generateEscapeOffset (random : num)
    (currentDirection escapeCount : Z) : Escape num :=
  let isTired := MAX_ESCAPES <=? escapeCount in
  let minDist := if isTired then TIRED_ESCAPE_MIN else HOVER_ESCAPE_MIN in
  let maxDist := if isTired then TIRED_ESCAPE_MAX else HOVER_ESCAPE_MAX in
  let distance := num_add minDist (num_mul random (num_sub maxDist minDist)) in
  let newDirection := currentDirection * -1 in
  {| esc_x := num_mul (num_of_Z newDirection) distance;
     esc_y := num_lit 0;
     newDirection := newDirection |}.

(** The state [useState] is first given. *)
Definition initialState : TrollState num :=
  {| clickCount := 0;
     rotation := 0;
     scale := num_lit 1;
     dialogStage := 0;
     hoverEscapeOffset := mkOffset (num_lit 0) (num_lit 0);
     escapeDirection := 1;
     escapeCount := 0 |}.

Definition initialHook : Hook num :=
  {| state := initialState; isComplete := false |}.

Definition handleClick (h : Hook num) : Hook num :=
  if isComplete h then h
  else
    let prev := state h in
    let newClickCount := clickCount prev + 1 in
    let newRotation := rotation prev + ROTATION_INCREMENT in
    let newScale := Math_max MIN_SCALE (num_sub (scale prev) SCALE_DECREMENT) in
    if (REQUIRED_CLICKS <=? newClickCount) && (dialogStage prev =? 0) then
      {| state :=
           {| clickCount := newClickCount;
              rotation := newRotation;
              scale := newScale;
              dialogStage := 1;
              hoverEscapeOffset := hoverEscapeOffset prev;
              escapeDirection := escapeDirection prev;
              escapeCount := escapeCount prev |};
         isComplete := isComplete h |}
    else
      {| state :=
           {| clickCount := newClickCount;
              rotation := newRotation;
              scale := newScale;
              dialogStage := dialogStage prev;
              hoverEscapeOffset := hoverEscapeOffset prev;
              escapeDirection := escapeDirection prev;
              escapeCount := escapeCount prev |};
         isComplete := isComplete h |}.

Definition handleHover (random : num) (h : Hook num) : Hook num :=
  if isComplete h then h
  else
    let prev := state h in
    let escape :=
      generateEscapeOffset random (escapeDirection prev) (escapeCount prev) in
    {| state :=
         {| clickCount := clickCount prev;
            rotation := rotation prev;
            scale := scale prev;
            dialogStage := dialogStage prev;
            hoverEscapeOffset := mkOffset (esc_x escape) (esc_y escape);
            escapeDirection := newDirection escape;
            escapeCount := escapeCount prev + 1 |};
       isComplete := isComplete h |}.

Definition confirmDialog (h : Hook num) : Hook num :=
  let prev := state h in
  let newDialogStage := dialogStage prev + 1 in
  if Z.of_nat (length TROLL_MESSAGES) <? newDialogStage then
    {| state :=
         {| clickCount := clickCount prev;
            rotation := rotation prev;
            scale := scale prev;
            dialogStage := 0;
            hoverEscapeOffset := hoverEscapeOffset prev;
            escapeDirection := escapeDirection prev;
            escapeCount := escapeCount prev |};
       isComplete := true |}
  else
    {| state :=
         {| clickCount := clickCount prev;
            rotation := rotation prev;
            scale := scale prev;
            dialogStage := newDialogStage;
            hoverEscapeOffset := hoverEscapeOffset prev;
            escapeDirection := escapeDirection prev;
            escapeCount := escapeCount prev |};
       isComplete := isComplete h |}.

Definition cancelDialog (h : Hook num) : Hook num :=
  let prev := state h in
  {| state :=
       {| clickCount := clickCount prev;
          rotation := rotation prev;
          scale := scale prev;
          dialogStage := 0;
          hoverEscapeOffset := hoverEscapeOffset prev;
          escapeDirection := escapeDirection prev;
          escapeCount := escapeCount prev |};
     isComplete := isComplete h |}.

Definition resetTroll (h : Hook num) : Hook num :=
  {| state :=
       {| clickCount := 0;
          rotation := 0;
          scale := num_lit 1;
          dialogStage := 0;
          hoverEscapeOffset := mkOffset (num_lit 0) (num_lit 0);
          escapeDirection := 1;
          escapeCount := 0 |};
     isComplete := false |}.

Definition resetHoverOffset (h : Hook num) : Hook num :=
  let prev := state h in
  {| state :=
       {| clickCount := clickCount prev;
          rotation := rotation prev;
          scale := scale prev;
          dialogStage := dialogStage prev;
          hoverEscapeOffset := mkOffset (num_lit 0) (num_lit 0);
          escapeDirection := 1;
          escapeCount := 0 |};
     isComplete := isComplete h |}.

Definition currentMessage (h : Hook num) : option string :=
  let s := state h in
  if (0 <? dialogStage s) && (dialogStage s <=? Z.of_nat (length TROLL_MESSAGES))
  then nth_error TROLL_MESSAGES (Z.to_nat (dialogStage s - 1))
  else None.

End Troll.


(** *** Sequences of hook operations *)

Inductive HookEvent (num : Type) : Type :=
| EvClick
| EvHover (random : num)
| EvConfirm
| EvCancel
| EvResetTroll
| EvResetHoverOffset.
Arguments EvClick {num}.
Arguments EvHover {num} _.
Arguments EvConfirm {num}.
Arguments EvCancel {num}.
Arguments EvResetTroll {num}.
Arguments EvResetHoverOffset {num}.

Definition step {num : Type} `{JsNumber num} (h : Hook num) (e : HookEvent num)
    : Hook num :=
  match e with
  | EvClick => handleClick h
  | EvHover random => handleHover random h
  | EvConfirm => confirmDialog h
  | EvCancel => cancelDialog h
  | EvResetTroll => resetTroll h
  | EvResetHoverOffset => resetHoverOffset h
  end.

Definition run {num : Type} `{JsNumber num} (evs : list (HookEvent num))
    (h : Hook num) : Hook num :=
  fold_left step evs h.

(** ** [TrollButtonContext.tsx] *)

(** The provider's state cell; [None] is [null]. *)
Definition ActiveButtonId : Type := option string.

Definition setActiveButton (id : option string) (_ : ActiveButtonId)
    : ActiveButtonId := id.

Definition isActiveButton (activeButtonId : ActiveButtonId) (id : string) : bool :=
  bool_decide (activeButtonId = Some id).

(** What a component finds in scope: the values of the enclosing
    [TrollButtonContext.Provider]s, innermost first.  [useContext] yields the
    innermost one, or the default given to [createContext], here
    [undefined] ([None]). *)
Definition Scope : Type := list ActiveButtonId.

Definition useContext (scope : Scope) : option ActiveButtonId := head scope.

Inductive Outcome (A : Type) : Type :=
| Return (a : A)
| Throw (message : string).
Arguments Return {A} _.
Arguments Throw {A} _.

Definition useTrollButtonContext (scope : Scope) : Outcome ActiveButtonId :=
  match useContext scope with
  | None => Throw "useTrollButtonContext must be used within a TrollButtonProvider"
  | Some context => Return context
  end.

(** ** Buttons as the host sees them *)

(** The props a component hands to the native [<button>] that matter here.
    [A] is the type of event handlers. *)
Record ButtonProps (A num : Type) : Type := mkButton {
  onClick : A;
  onMouseEnter : option A;
  translateX : option num;   (* [style.transform], when a style is given *)
  aria_label : string;
  data_testid : string;
}.
Arguments mkButton {A num} _ _ _ _ _.
Arguments onClick {A num} _.
Arguments onMouseEnter {A num} _.
Arguments translateX {A num} _.
Arguments aria_label {A num} _.
Arguments data_testid {A num} _.

(** What the user does to a rendered button.  The host turns a click, and
    Enter or Space on the focused button, into one click event; entering the
    button with the pointer is a mouse-enter event. *)
Inductive Gesture : Type := Click | KeyEnter | KeySpace | PointerEnter.

(** The handlers a gesture invokes, in order. *)
Definition dispatch {A num : Type} (g : Gesture) (b : ButtonProps A num) : list A :=
  match g with
  | Click | KeyEnter | KeySpace => [onClick b]
  | PointerEnter =>
      match onMouseEnter b with
      | Some handler => [handler]
      | None => []
      end
  end.

(** ** [DoneButton.tsx] *)

Definition DoneButton {A num : Type} (onComplete : A) (isCompleted : bool)
    : option (ButtonProps A num) :=
  if isCompleted then None
  else Some {| onClick := onComplete;
               onMouseEnter := None;
               translateX := None;
               aria_label := "Mark as complete";
               data_testid := "done-button" |}.

(** ** [TrollDoneButton.tsx] *)

Inductive TrollHandler : Type := HandleClick | HandleButtonHover.

Record DialogProps : Type := mkDialog {
  isOpen : bool;
  message : string;
}.

(** [h'] differs from [h] in [dialogStage] at most, among the fields of
    [state]. *)
Definition sameButDialogStage {num : Type} (h h' : Hook num) : Prop :=
  clickCount (state h') = clickCount (state h) /\
  rotation (state h') = rotation (state h) /\
  scale (state h') = scale (state h) /\
  hoverEscapeOffset (state h') = hoverEscapeOffset (state h) /\
  escapeDirection (state h') = escapeDirection (state h) /\
  escapeCount (state h') = escapeCount (state h).

(** The data model's range of [escapeDirection]. *)
Definition direction_ok {num : Type} (h : Hook num) : Prop :=
  escapeDirection (state h) = 1 \/ escapeDirection (state h) = -1.

Section TrollButton.
Context {num : Type} `{JsNumber num}.

(** The offset the style applies: the hook's own offset only for the button
    the registry names. *)
Definition transformStyle (isDisplaced : bool) (hoverOffset : Offset num) : num :=
  if isDisplaced then x hoverOffset else num_lit 0.

(** One render: the troll hook's state [h] and the scope decide what is
    shown.  The hooks run before the [isCompleted] test, as in the source. *)
Definition TrollDoneButton (isCompleted : bool) (todoId : string)
    (scope : Scope) (h : Hook num)
    : Outcome (option (ButtonProps TrollHandler num * DialogProps)) :=
  match useTrollButtonContext scope with
  | Throw msg => Throw msg
  | Return activeButtonId =>
      let isDisplaced := isActiveButton activeButtonId todoId in
      if isCompleted then Return None
      else
        Return (Some
          ({| onClick := HandleClick;
              onMouseEnter := Some HandleButtonHover;
              translateX :=
                Some (transformStyle isDisplaced (hoverEscapeOffset (state h)));
              aria_label := "Mark as complete";
              data_testid := "troll-done-button" |},
           {| isOpen := bool_decide (currentMessage h <> None);
              message := default EmptyString (currentMessage h) |}))
  end.

(** ** A list of troll buttons under one provider *)

(** The provider's cell and the hook state of every mounted button, by todo
    id. *)
Record TodoList : Type := mkTodoList {
  activeButtonId : ActiveButtonId;
  hooks : gmap string (Hook num);
}.

(** [handleButtonHover] of the button [todoId]: it names itself in the
    registry, then lets its own hook escape. *)
Definition handleButtonHover (todoId : string) (random : num) (l : TodoList)
    : TodoList :=
  {| activeButtonId := setActiveButton (Some todoId) (activeButtonId l);
     hooks := alter (handleHover random) todoId (hooks l) |}.

Definition hoverAll (hovers : list (string * num)) (l : TodoList) : TodoList :=
  fold_left (fun l hv => handleButtonHover (fst hv) (snd hv) l) hovers l.

(** The offset the button [todoId] of an incomplete todo is rendered with,
    when it is mounted. *)
Definition renderedOffset (l : TodoList) (todoId : string) : option num :=
  match hooks l !! todoId with
  | None => None
  | Some h =>
      match TrollDoneButton false todoId [activeButtonId l] h with
      | Return (Some (button, _)) => translateX button
      | _ => None
      end
  end.

End TrollButton.
Arguments TodoList num : clear implicits.

(** ** Concrete runs, on binary64 numbers *)

(** One click opens the first dialog. *)
Definition clickedOnce : Hook float := handleClick initialHook.

(** The dialog is cancelled after that click. *)
Definition cancelledAfterClick : Hook float := cancelDialog clickedOnce.

(** The three dialogs are confirmed after that click. *)
Definition completed : Hook float :=
  confirmDialog (confirmDialog (confirmDialog clickedOnce)).

(** The values [scale] takes on the way from 1.0 down to the floor. *)
Definition scaleTrajectory : list float :=
  map (fun n => scale (state (Nat.iter n handleClick initialHook))) (seq 0 7).

(** Two buttons under one provider, both at rest. *)
Definition twoButtons : TodoList float :=
  {| activeButtonId := None;
     hooks := <["A"%string := initialHook]> (<["B"%string := initialHook]> ∅) |}.

(** ** Vocabulary for traces of hook operations *)

Definition isConfirm {num : Type} (e : HookEvent num) : bool :=
  match e with EvConfirm => true | _ => false end.

Definition isResetTroll {num : Type} (e : HookEvent num) : bool :=
  match e with EvResetTroll => true | _ => false end.

(** How often [confirmDialog] is called in a trace. *)
Definition confirmations {num : Type} (evs : list (HookEvent num)) : nat :=
  length (List.filter isConfirm evs).


(** [dialogStage] names no dialog or one of the three messages. *)
Definition stage_ok {num : Type} (h : Hook num) : Prop :=
  0 <= dialogStage (state h) <= 3.

(** [rotation] follows [clickCount]. *)
Definition rotation_ok {num : Type} (h : Hook num) : Prop :=
  0 <= clickCount (state h) /\
  rotation (state h) = ROTATION_INCREMENT * clickCount (state h).

(** ** [ConfirmationDialog.tsx] *)

(** What the user does to the dialog: the Yes button, the Cancel button, or
    something that makes the host dialog report a new open state (Escape and
    a click outside report [false]). *)
Inductive DialogGesture : Type :=
| PressYes
| PressCancel
| OpenChange (open : bool).

(** The handlers a gesture invokes.  A dialog that is not open shows nothing
    to act on. *)
Definition ConfirmationDialog {A : Type} (isOpen : bool) (onConfirm onCancel : A)
    (g : DialogGesture) : list A :=
  if isOpen then
    match g with
    | PressYes => [onConfirm]
    | PressCancel => [onCancel]
    | OpenChange open => if negb open then [onCancel] else []
    end
  else [].

(** ** A mounted [TrollDoneButton] *)

Inductive DialogHandler : Type := ConfirmDialog | CancelDialog.

(** What reaches a mounted button: a gesture on the button (with the value
    [Math.random()] would return, should the gesture make the hook ask for
    one), a gesture on its dialog, or the owner calling [resetPosition]
    through the ref. *)
Inductive UiEvent (num : Type) : Type :=
| OnButton (g : Gesture) (random : num)
| OnDialog (g : DialogGesture)
| ResetPosition.
Arguments OnButton {num} _ _.
Arguments OnDialog {num} _.
Arguments ResetPosition {num}.

(** What one render reads from outside the component. *)
Record Props : Type := mkProps {
  p_isCompleted : bool;
  p_todoId : string;
  p_active : ActiveButtonId;     (* the value of the enclosing provider *)
  p_onComplete : nat;            (* the identity of the callback passed in *)
}.

Section Mounted.
Context {num : Type} `{JsNumber num}.

Definition handlerEvent (random : num) (t : TrollHandler) : HookEvent num :=
  match t with
  | HandleClick => EvClick
  | HandleButtonHover => EvHover random
  end.

Definition dialogEvent (d : DialogHandler) : HookEvent num :=
  match d with
  | ConfirmDialog => EvConfirm
  | CancelDialog => EvCancel
  end.

(** The hook operations an event sets off, given what is on screen. *)
Definition uiHandlers (p : Props) (h : Hook num) (e : UiEvent num)
    : list (HookEvent num) :=
  match TrollDoneButton (p_isCompleted p) (p_todoId p) [p_active p] h with
  | Return (Some (button, dialog)) =>
      match e with
      | OnButton g random => map (handlerEvent random) (dispatch g button)
      | OnDialog g =>
          map dialogEvent
              (ConfirmationDialog (isOpen dialog) ConfirmDialog CancelDialog g)
      | ResetPosition => [EvResetHoverOffset]
      end
  | _ =>
      match e with
      | ResetPosition => [EvResetHoverOffset]
      | _ => []
      end
  end.

Definition uiStep (p : Props) (h : Hook num) (e : UiEvent num) : Hook num :=
  run (uiHandlers p h e) h.

(** The hook's cells and the dependencies [isComplete, onComplete] the
    completion effect last ran with ([None] before the first render). *)
Record Mounted : Type := mkMounted {
  m_hook : Hook num;
  m_deps : option (bool * nat);
}.

(** The effect after a render: it runs when a dependency has changed, and
    then calls [onComplete] if [isComplete] holds.  The result is the
    instance and the callbacks called. *)
Definition completionEffect (p : Props) (m : Mounted) : Mounted * list nat :=
  let deps := (isComplete (m_hook m), p_onComplete p) in
  if decide (m_deps m = Some deps) then (m, [])
  else ({| m_hook := m_hook m; m_deps := Some deps |},
        if isComplete (m_hook m) then [p_onComplete p] else []).

(** What happens to a mounted button: the user acts on what the last render
    with props [p] shows, or the owner renders it again with props [p]. *)
Inductive Happening : Type :=
| User (p : Props) (e : UiEvent num)
| Render (p : Props).

Definition happen (st : Mounted * list nat) (a : Happening) : Mounted * list nat :=
  let '(m, calls) := st in
  match a with
  | User p e =>
      let '(m', called) :=
        completionEffect p {| m_hook := uiStep p (m_hook m) e; m_deps := m_deps m |} in
      (m', calls ++ called)
  | Render p =>
      let '(m', called) := completionEffect p m in
      (m', calls ++ called)
  end.

Definition mount (p : Props) : Mounted * list nat :=
  completionEffect p {| m_hook := initialHook; m_deps := None |}.

Definition lifetime (p : Props) (trace : list Happening) : Mounted * list nat :=
  fold_left happen trace (mount p).

Definition propsOf (a : Happening) : Props :=
  match a with User p _ => p | Render p => p end.

Definition isYes (a : Happening) : bool :=
  match a with User _ (OnDialog PressYes) => true | _ => false end.

Definition isActivation (a : Happening) : bool :=
  match a with
  | User _ (OnButton (Click | KeyEnter | KeySpace) _) => true
  | _ => false
  end.

(** How often the button is activated, and how often Yes is pressed. *)
Definition activations (trace : list Happening) : nat :=
  length (List.filter isActivation trace).

Definition yesPresses (trace : list Happening) : nat :=
  length (List.filter isYes trace).

(** The progress a mounted button has made, against the activations [a] and
    the Yes presses [c] counted so far. *)
Definition progress (h : Hook num) (a c : nat) : Prop :=
  0 <= clickCount (state h) <= Z.of_nat a /\
  dialogStage (state h) <= Z.of_nat c + 1 /\
  (0 < dialogStage (state h) -> 1 <= clickCount (state h)) /\
  (isComplete h = true -> 1 <= clickCount (state h) /\ (3 <= c)%nat).

(** With one and the same callback [cb] throughout: the dependencies
    recorded are the current ones, and the callback has been called once if
    the hook is complete, and not at all otherwise. *)
Definition called_once (cb : nat) (st : Mounted * list nat) : Prop :=
  m_deps (fst st) = Some (isComplete (m_hook (fst st)), cb) /\
  snd st = if isComplete (m_hook (fst st)) then [cb] else [].

End Mounted.
Arguments Mounted num : clear implicits.
Arguments Happening num : clear implicits.

(** [h'] has the hover fields of [h]. *)
Definition sameHoverFields {num : Type} (h h' : Hook num) : Prop :=
  hoverEscapeOffset (state h') = hoverEscapeOffset (state h) /\
  escapeDirection (state h') = escapeDirection (state h) /\
  escapeCount (state h') = escapeCount (state h).

(** [h'] has the click, dialog and completion fields of [h]. *)
Definition sameClickFields {num : Type} (h h' : Hook num) : Prop :=
  clickCount (state h') = clickCount (state h) /\
  rotation (state h') = rotation (state h) /\
  scale (state h') = scale (state h) /\
  dialogStage (state h') = dialogStage (state h) /\
  isComplete h' = isComplete h.

(** ** [TodoItem.tsx]: the pointer leaves a row *)

Section Rows.
Context {num : Type} `{JsNumber num}.

(** [handleMouseLeave] of the row of [todoId] calls [resetPosition] on its
    button, which is the hook's [resetHoverOffset]; the registry is not
    told. *)
Definition handleMouseLeave (todoId : string) (l : TodoList num) : TodoList num :=
  {| activeButtonId := activeButtonId l;
     hooks := alter resetHoverOffset todoId (hooks l) |}.

End Rows.

(** ** Strings of todo texts *)

(** A JavaScript string, as its UTF-16 code units. *)
Definition JsString : Type := list N.

(** The code units [String.prototype.trim] removes: the white space and line
    terminator code points of ECMAScript (TAB, LF, VT, FF, CR, SP, NBSP,
    U+1680, U+2000..U+200A, U+2028, U+2029, U+202F, U+205F, U+3000,
    U+FEFF). *)
Definition isWhiteSpace (c : N) : bool :=
  ((9 <=? c) && (c <=? 13) || (c =? 32) || (c =? 160) || (c =? 5760)
   || (8192 <=? c) && (c <=? 8202) || (c =? 8232) || (c =? 8233)
   || (c =? 8239) || (c =? 8287) || (c =? 12288) || (c =? 65279))%N.

Fixpoint trimStart (s : JsString) : JsString :=
  match s with
  | [] => []
  | c :: rest => if isWhiteSpace c then trimStart rest else s
  end.

Definition trimEnd (s : JsString) : JsString := rev (trimStart (rev s)).

Definition trim (s : JsString) : JsString := trimEnd (trimStart s).

(** A string is falsy exactly when it is empty. *)
Definition isEmpty (s : JsString) : bool :=
  match s with [] => true | _ => false end.

(** ** [useTodos.ts] *)

Record Todo : Type := mkTodo {
  todo_id : string;
  todo_text : JsString;
  todo_completed : bool;
  todo_createdAt : Z;
}.

(** [uuid] and [now] are what [uuidv4()] and [Date.now()] return in this
    call. *)
Definition addTodo (uuid : string) (now : Z) (text : JsString)
    (prev : list Todo) : list Todo :=
  let trimmed := trim text in
  if isEmpty trimmed then prev
  else
    let newTodo :=
      {| todo_id := uuid;
         todo_text := trimmed;
         todo_completed := false;
         todo_createdAt := now |} in
    prev ++ [newTodo].

Definition completeTodo (id : string) (prev : list Todo) : list Todo :=
  map (fun todo =>
         if bool_decide (todo_id todo = id)
         then {| todo_id := todo_id todo;
                 todo_text := todo_text todo;
                 todo_completed := true;
                 todo_createdAt := todo_createdAt todo |}
         else todo)
      prev.

Definition deleteTodo (id : string) (prev : list Todo) : list Todo :=
  List.filter (fun todo => negb (bool_decide (todo_id todo = id))) prev.

(** The operations of the hook, and a sequence of them. *)
Inductive TodoOp : Type :=
| Add (uuid : string) (now : Z) (text : JsString)
| Complete (id : string)
| Delete (id : string).

Definition applyOp (todos : list Todo) (op : TodoOp) : list Todo :=
  match op with
  | Add uuid now text => addTodo uuid now text todos
  | Complete id => completeTodo id todos
  | Delete id => deleteTodo id todos
  end.

Definition applyOps (ops : list TodoOp) (todos : list Todo) : list Todo :=
  fold_left applyOp ops todos.

(** [t'] is [t], possibly completed since. *)
Definition laterOf (t t' : Todo) : Prop :=
  todo_id t' = todo_id t /\
  todo_text t' = todo_text t /\
  todo_createdAt t' = todo_createdAt t /\
  (todo_completed t = true -> todo_completed t' = true).

(** Every id [uuidv4()] returns is the id of no todo then in the list. *)
Fixpoint freshIds (ops : list TodoOp) (todos : list Todo) : Prop :=
  match ops with
  | [] => True
  | op :: ops =>
      match op with
      | Add uuid _ _ => ~ In uuid (map todo_id todos)
      | _ => True
      end /\ freshIds ops (applyOp todos op)
  end.

(** ** [AddTodo.tsx] *)

(** [handleSubmit] on the input value: the calls of [onAdd] it makes, and
    the input value it leaves. *)
Definition handleSubmit (inputValue : JsString) : list JsString * JsString :=
  let trimmedValue := trim inputValue in
  if isEmpty trimmedValue then ([], inputValue)
  else ([trimmedValue], []).

(** [App.tsx] passes [addTodo] as [onAdd]. *)
Definition submit (uuid : string) (now : Z) (inputValue : JsString)
    (todos : list Todo) : list Todo * JsString :=
  let '(calls, inputValue') := handleSubmit inputValue in
  (fold_left (fun todos text => addTodo uuid now text todos) calls todos,
   inputValue').

(** ** [TodoItem.tsx] and [TodoList.tsx] as renders *)

Record TodoItemView (num : Type) : Type := mkItemView {
  item_text : JsString;
  item_lineThrough : bool;
  item_done : option (ButtonProps TrollHandler num * DialogProps);
}.
Arguments mkItemView {num} _ _ _.
Arguments item_text {num} _.
Arguments item_lineThrough {num} _.
Arguments item_done {num} _.

Inductive TodoListView (num : Type) : Type :=
| EmptyState
| Items (items : list (TodoItemView num)).
Arguments EmptyState {num}.
Arguments Items {num} _.

(** Rendering the children in order; the first one that throws aborts the
    render. *)
Fixpoint renderEach {A : Type} (children : list (Outcome A)) : Outcome (list A) :=
  match children with
  | [] => Return []
  | Throw msg :: _ => Throw msg
  | Return a :: rest =>
      match renderEach rest with
      | Throw msg => Throw msg
      | Return views => Return (a :: views)
      end
  end.

Section Renders.
Context {num : Type} `{JsNumber num}.

Definition TodoItem (todo : Todo) (scope : Scope) (h : Hook num)
    : Outcome (TodoItemView num) :=
  match TrollDoneButton (todo_completed todo) (todo_id todo) scope h with
  | Throw msg => Throw msg
  | Return done =>
      Return {| item_text := todo_text todo;
                item_lineThrough := todo_completed todo;
                item_done := done |}
  end.

(** The list component, rendered inside [outer] with the provider's cell
    and the items' hooks as [l] holds them; an item not mounted before
    starts from the initial hook state. *)
Definition TodoListComponent (todos : list Todo) (outer : Scope) (l : TodoList num)
    : Outcome (TodoListView num) :=
  if (length todos =? 0)%nat then Return EmptyState
  else
    match
      renderEach
        (map (fun todo =>
                TodoItem todo (activeButtonId l :: outer)
                         (default initialHook (hooks l !! todo_id todo)))
             todos)
    with
    | Throw msg => Throw msg
    | Return items => Return (Items items)
    end.

(** What an item shows, given the provider's cell and its hook. *)
Definition itemView (l : TodoList num) (todo : Todo) : TodoItemView num :=
  let h := default initialHook (hooks l !! todo_id todo) in
  {| item_text := todo_text todo;
     item_lineThrough := todo_completed todo;
     item_done :=
       if todo_completed todo then None
       else Some
         ({| onClick := HandleClick;
             onMouseEnter := Some HandleButtonHover;
             translateX :=
               Some (if isActiveButton (activeButtonId l) (todo_id todo)
                     then x (hoverEscapeOffset (state h)) else num_lit 0);
             aria_label := "Mark as complete";
             data_testid := "troll-done-button" |},
          {| isOpen := bool_decide (currentMessage h <> None);
             message := default EmptyString (currentMessage h) |}) |}.

End Renders.

(** ** Concrete inputs for the properties below *)

Definition sampleProps : Props :=
  {| p_isCompleted := false; p_todoId := "A"; p_active := None; p_onComplete := 7 |}.

(** One click on the button, then Yes three times. *)
Definition sampleLifetime : list (Happening float) :=
  [ User sampleProps (OnButton Click 0.5%float);
    User sampleProps (OnDialog PressYes);
    User sampleProps (OnDialog PressYes);
    User sampleProps (OnDialog PressYes) ].

(** Two additions (the first text has a space on either side), then the
    first todo is completed and the second deleted. *)
Definition sampleOps : list TodoOp :=
  [ Add "a" 1 [32; 120; 32]%N; Add "b" 2 [121]%N; Complete "a"; Delete "b" ].

(** * Properties *)

(** ** The literals denote the doubles JavaScript reads them as *)

Example float_literals :
  (SCALE_DECREMENT : float) = 0x1.999999999999ap-4%float /\
  (MIN_SCALE : float) = 0.5%float /\
  (HOVER_ESCAPE_MIN : float) = 80%float /\
  (HOVER_ESCAPE_MAX : float) = 120%float /\
  (TIRED_ESCAPE_MIN : float) = 15%float /\
  (TIRED_ESCAPE_MAX : float) = 25%float /\
  num_of_Z (-1) = (-1)%float.
Proof. repeat split; reflexivity. Qed.

Example scaleTrajectory_values :
  scaleTrajectory =
    [ 1%float; 0x1.ccccccccccccdp-1%float; 0x1.999999999999ap-1%float;
      0x1.6666666666667p-1%float; 0x1.3333333333334p-1%float;
      0x1.0000000000001p-1%float; 0.5%float ].
Proof. reflexivity. Qed.

(** ** The hook's transitions, for any number type *)

Section HookProperties.
Context {num : Type} `{JsNumber num}.
Implicit Types h : Hook num.

Lemma TROLL_MESSAGES_length : Z.of_nat (length TROLL_MESSAGES) = 3.
Proof. reflexivity. Qed.

Lemma handleClick_complete h : isComplete h = true -> handleClick h = h.
Proof. unfold handleClick. now intros ->. Qed.

Lemma handleHover_complete random h :
  isComplete h = true -> handleHover random h = h.
Proof. unfold handleHover. now intros ->. Qed.

Lemma handleClick_isComplete h : isComplete (handleClick h) = isComplete h.
Proof.
  unfold handleClick.
  destruct (isComplete h) eqn:E; [ exact E | ].
  now destruct (_ && _).
Qed.

Lemma handleHover_isComplete random h :
  isComplete (handleHover random h) = isComplete h.
Proof. unfold handleHover. now destruct (isComplete h) eqn:E. Qed.

Lemma confirmDialog_frame h : sameButDialogStage h (confirmDialog h).
Proof.
  unfold confirmDialog, sameButDialogStage.
  destruct (_ <? _); cbn; repeat split.
Qed.

Lemma cancelDialog_frame h : sameButDialogStage h (cancelDialog h).
Proof. unfold sameButDialogStage. cbn. repeat split. Qed.

Lemma cancelDialog_at_rest h : dialogStage (state h) = 0 -> cancelDialog h = h.
Proof.
  destruct h as [[c r s d o e n] b]. cbn. intros ->. reflexivity.
Qed.

(** What one confirmation does to [dialogStage] and [isComplete]. *)
Lemma confirmDialog_step h :
  let exceeds := 3 <? dialogStage (state h) + 1 in
  dialogStage (state (confirmDialog h))
    = (if exceeds then 0 else dialogStage (state h) + 1) /\
  isComplete (confirmDialog h) = (if exceeds then true else isComplete h).
Proof.
  unfold confirmDialog. rewrite TROLL_MESSAGES_length.
  cbv zeta. destruct (3 <? _); cbn; split; reflexivity.
Qed.

(** [escapeDirection] is 1 or -1 in every state the hook passes through. *)
Lemma step_direction_ok h e : direction_ok h -> direction_ok (step h e).
Proof.
  unfold direction_ok. intros D.
  destruct e; cbn.
  - unfold handleClick. destruct (isComplete h); [ exact D | ].
    destruct (_ && _); exact D.
  - unfold handleHover. destruct (isComplete h); [ exact D | ].
    cbn. lia.
  - unfold confirmDialog. destruct (_ <? _); exact D.
  - exact D.
  - now left.
  - now left.
Qed.

Lemma run_direction_ok evs h : direction_ok h -> direction_ok (run evs h).
Proof.
  unfold run. revert h.
  induction evs as [ | e evs IH ]; intros h D; cbn; [ exact D | ].
  apply IH, step_direction_ok, D.
Qed.

Lemma reachable_direction_ok evs : direction_ok (run evs initialHook).
Proof. apply run_direction_ok. now left. Qed.

End HookProperties.

(** ** Completion, clicks and the dialog sequence *)

Section Claims.
Context {num : Type} `{JsNumber num}.
Implicit Types h : Hook num.

(** C1 (amended).  In a state with [isComplete = true] the two input
    handlers, [handleClick] and [handleHover], leave the whole state as it
    is.  [confirmDialog] and [cancelDialog] do not test [isComplete]: they
    keep [isComplete = true] and every field other than [dialogStage], and
    [cancelDialog] changes nothing at all when [dialogStage] is 0.  Only
    [resetTroll] clears [isComplete]: [resetHoverOffset] keeps it, and so
    does every sequence of operations that leaves [resetTroll] out, while
    [resetTroll] sets it to [false]. *)
Theorem complete_is_terminal_for_input h random :
  isComplete h = true ->
  handleClick h = h /\
  handleHover random h = h /\
  isComplete (confirmDialog h) = true /\
  sameButDialogStage h (confirmDialog h) /\
  isComplete (cancelDialog h) = true /\
  sameButDialogStage h (cancelDialog h) /\
  (dialogStage (state h) = 0 -> cancelDialog h = h) /\
  isComplete (resetHoverOffset h) = true /\
  isComplete (resetTroll h) = false /\
  (forall evs : list (HookEvent num),
     forallb (fun e => negb (isResetTroll e)) evs = true ->
     isComplete (run evs h) = true).
Proof.
  intros C.
  split; [ now apply handleClick_complete | ].
  split; [ now apply handleHover_complete | ].
  split.
  { destruct (confirmDialog_step h) as [_ ->]. now destruct (3 <? _). }
  split; [ apply confirmDialog_frame | ].
  split; [ exact C | ].
  split; [ apply cancelDialog_frame | ].
  split; [ apply cancelDialog_at_rest | ].
  split; [ exact C | ].
  split; [ reflexivity | ].
  intros evs. revert h C.
  induction evs as [ | e evs IH ]; intros h C N; [ exact C | ].
  cbn [forallb] in N. apply andb_prop in N. destruct N as [Ne N].
  change (run (e :: evs) h) with (run evs (step h e)).
  apply IH; [ | exact N ].
  destruct e; cbn [step]; cbn in Ne; try discriminate Ne.
  - now rewrite handleClick_isComplete.
  - now rewrite handleHover_isComplete.
  - destruct (confirmDialog_step h) as [_ ->]. rewrite C. now destruct (3 <? _).
  - exact C.
  - exact C.
Qed.

(** C2 (amended).  [handleClick] sets [dialogStage] to 1 exactly when the
    hook is not complete, [dialogStage] is 0 and the incremented [clickCount]
    is at least [REQUIRED_CLICKS]; that includes every click taken at stage 0
    once the count has met the threshold, such as the click after a cancel.
    In every other case it leaves [dialogStage] as it is, so a click never
    moves the dialog from one open stage to another. *)
Theorem handleClick_dialogStage h :
  dialogStage (state (handleClick h)) =
    if negb (isComplete h)
       && (REQUIRED_CLICKS <=? clickCount (state h) + 1)
       && (dialogStage (state h) =? 0)
    then 1
    else dialogStage (state h).
Proof.
  unfold handleClick.
  destruct (isComplete h); cbn [negb andb]; [ reflexivity | ].
  destruct (REQUIRED_CLICKS <=? clickCount (state h) + 1);
    destruct (dialogStage (state h) =? 0); reflexivity.
Qed.

(** C3.  [confirmDialog] adds one to [dialogStage]; when the new stage
    exceeds the three messages it sets [isComplete] and puts [dialogStage]
    back to 0; it touches no other field, [clickCount] included.  From stage
    1, three confirmations complete the hook with [dialogStage = 0], and
    fewer than three leave [isComplete] as it was. *)
Theorem confirmDialog_sequence h :
  Z.of_nat (length TROLL_MESSAGES) = 3 /\
  dialogStage (state (confirmDialog h))
    = (if 3 <? dialogStage (state h) + 1 then 0 else dialogStage (state h) + 1) /\
  isComplete (confirmDialog h)
    = (if 3 <? dialogStage (state h) + 1 then true else isComplete h) /\
  sameButDialogStage h (confirmDialog h) /\
  (dialogStage (state h) = 1 ->
     isComplete (Nat.iter 3 confirmDialog h) = true /\
     dialogStage (state (Nat.iter 3 confirmDialog h)) = 0 /\
     clickCount (state (Nat.iter 3 confirmDialog h)) = clickCount (state h) /\
     forall k, (k < 3)%nat ->
       isComplete (Nat.iter k confirmDialog h) = isComplete h).
Proof.
  split; [ reflexivity | ].
  split; [ apply confirmDialog_step | ].
  split; [ apply confirmDialog_step | ].
  split; [ apply confirmDialog_frame | ].
  intros S1.
  destruct h as [[c r s d o e n] b]. cbn in S1. subst d.
  repeat split.
  intros k K.
  destruct k as [ | [ | [ | k ] ] ]; [ reflexivity .. | lia ].
Qed.

(** C5.  [cancelDialog] puts [dialogStage] to 0 and keeps [clickCount],
    [rotation], [scale], [hoverEscapeOffset], [escapeDirection],
    [escapeCount] and [isComplete]; after three clicks and a cancel,
    [clickCount] is 3 and [dialogStage] is 0. *)
Theorem cancelDialog_only_resets_dialogStage :
  (forall h,
     dialogStage (state (cancelDialog h)) = 0 /\
     clickCount (state (cancelDialog h)) = clickCount (state h) /\
     rotation (state (cancelDialog h)) = rotation (state h) /\
     scale (state (cancelDialog h)) = scale (state h) /\
     hoverEscapeOffset (state (cancelDialog h)) = hoverEscapeOffset (state h) /\
     escapeDirection (state (cancelDialog h)) = escapeDirection (state h) /\
     escapeCount (state (cancelDialog h)) = escapeCount (state h) /\
     isComplete (cancelDialog h) = isComplete h) /\
  clickCount (state (cancelDialog (Nat.iter 3 handleClick initialHook))) = 3 /\
  dialogStage (state (cancelDialog (Nat.iter 3 handleClick initialHook))) = 0.
Proof.
  split; [ intros h; cbn; repeat split | split; reflexivity ].
Qed.

(** C10.  While a dialog is open ([isComplete = false], [dialogStage > 0])
    a click is still counted: [clickCount] grows by 1, [rotation] by
    [ROTATION_INCREMENT = 15], [scale] drops by [SCALE_DECREMENT] down to
    [MIN_SCALE] at most, and [dialogStage], [hoverEscapeOffset],
    [escapeDirection], [escapeCount] and [isComplete] stay. *)
Theorem handleClick_while_dialog_open h :
  isComplete h = false ->
  0 < dialogStage (state h) ->
  ROTATION_INCREMENT = 15 /\
  clickCount (state (handleClick h)) = clickCount (state h) + 1 /\
  rotation (state (handleClick h)) = rotation (state h) + ROTATION_INCREMENT /\
  scale (state (handleClick h))
    = Math_max MIN_SCALE (num_sub (scale (state h)) SCALE_DECREMENT) /\
  dialogStage (state (handleClick h)) = dialogStage (state h) /\
  hoverEscapeOffset (state (handleClick h)) = hoverEscapeOffset (state h) /\
  escapeDirection (state (handleClick h)) = escapeDirection (state h) /\
  escapeCount (state (handleClick h)) = escapeCount (state h) /\
  isComplete (handleClick h) = false.
Proof.
  intros C D.
  unfold handleClick. rewrite C.
  assert ((dialogStage (state h) =? 0) = false) as -> by (apply Z.eqb_neq; lia).
  rewrite andb_false_r. cbn. repeat split.
Qed.

End Claims.

(** ** The registry and the buttons *)

Section Displacement.
Context {num : Type} `{JsNumber num}.

Lemma hoverAll_snoc (l : TodoList num) hovers todoId random :
  hoverAll (hovers ++ [(todoId, random)]) l
    = handleButtonHover todoId random (hoverAll hovers l).
Proof. unfold hoverAll. now rewrite fold_left_app. Qed.

Lemma isActiveButton_Some (a id : string) :
  isActiveButton (Some a) id = bool_decide (id = a).
Proof. unfold isActiveButton. apply bool_decide_ext. split; congruence. Qed.

Lemma renderedOffset_mounted (l : TodoList num) id :
  renderedOffset l id
    = (fun h => transformStyle (isActiveButton (activeButtonId l) id)
                               (hoverEscapeOffset (state h)))
      <$> hooks l !! id.
Proof. unfold renderedOffset. now destruct (hooks l !! id). Qed.

(** C4.  After any sequence of hovers over the buttons of one provider,
    [isActiveButton] holds of the button hovered last and of no other, and
    a mounted button is rendered with its own stored offset if it is that
    button and with offset 0 otherwise, whatever its stored offset is. *)
Theorem displacement_mutual_exclusion (l : TodoList num) hovers todoId random :
  (forall id,
     isActiveButton
       (activeButtonId (hoverAll (hovers ++ [(todoId, random)]) l)) id
     = bool_decide (id = todoId)) /\
  (forall id,
     renderedOffset (hoverAll (hovers ++ [(todoId, random)]) l) id
     = (fun h => if bool_decide (id = todoId)
                 then x (hoverEscapeOffset (state h))
                 else num_lit 0)
       <$> hooks (hoverAll (hovers ++ [(todoId, random)]) l) !! id).
Proof.
  rewrite hoverAll_snoc.
  split; intros id.
  - apply isActiveButton_Some.
  - rewrite renderedOffset_mounted. cbn [activeButtonId handleButtonHover].
    unfold setActiveButton. rewrite isActiveButton_Some. reflexivity.
Qed.

End Displacement.

(** Two buttons A and B: hovering A makes A the active one; hovering B next
    makes B the active one, and A, whose hook still stores the offset -100,
    is rendered at 0. *)
Example two_buttons_flip :
  let afterA := handleButtonHover "A" 0.5%float twoButtons in
  let afterB := handleButtonHover "B" 0.5%float afterA in
  isActiveButton (activeButtonId afterA) "A" = true /\
  isActiveButton (activeButtonId afterA) "B" = false /\
  renderedOffset afterA "A" = Some (-100)%float /\
  isActiveButton (activeButtonId afterB) "A" = false /\
  isActiveButton (activeButtonId afterB) "B" = true /\
  (x ∘ hoverEscapeOffset ∘ state) <$> hooks afterB !! "A"%string
    = Some (-100)%float /\
  renderedOffset afterB "A" = Some 0%float /\
  renderedOffset afterB "B" = Some (-100)%float.
Proof. vm_compute. repeat split. Qed.

(** C8.  The fixed [DoneButton] renders nothing for a completed todo.  For
    an incomplete one, a click, Enter or Space invokes the completion
    callback and nothing else, once; entering the button with the pointer
    invokes nothing, and the button carries no offset: the component is a
    function of its props alone. *)
Theorem DoneButton_fixed (A num : Type) (onComplete : A) :
  DoneButton (num := num) onComplete true = None /\
  exists button : ButtonProps A num,
    DoneButton onComplete false = Some button /\
    dispatch Click button = [onComplete] /\
    dispatch KeyEnter button = [onComplete] /\
    dispatch KeySpace button = [onComplete] /\
    dispatch PointerEnter button = [] /\
    translateX button = None.
Proof.
  split; [ reflexivity | ].
  eexists. split; [ reflexivity | ]. cbn. repeat split.
Qed.

(** C9.  With no [TrollButtonProvider] in scope [useTrollButtonContext]
    throws its error, and so does a [TrollDoneButton] rendered there; with a
    provider in scope it returns the provider's value and never throws. *)
Theorem useTrollButtonContext_needs_provider :
  useTrollButtonContext []
    = Throw "useTrollButtonContext must be used within a TrollButtonProvider" /\
  (forall context scope, useTrollButtonContext (context :: scope) = Return context) /\
  (forall (num : Type) (N : JsNumber num) isCompleted todoId (h : Hook num),
     TrollDoneButton isCompleted todoId [] h
       = Throw "useTrollButtonContext must be used within a TrollButtonProvider").
Proof. repeat split. Qed.

(** ** The scale floor, on binary64 numbers *)

Ltac pick_equal := repeat first [ left; reflexivity | right ].

Lemma scaleTrajectory_click (s : float) :
  In s scaleTrajectory ->
  In (Math_max MIN_SCALE (num_sub s SCALE_DECREMENT)) scaleTrajectory.
Proof.
  intros T. vm_compute in T.
  repeat (destruct T as [ <- | T ]; [ vm_compute; pick_equal | ]).
  destruct T.
Qed.

Lemma scaleTrajectory_floor (s : float) :
  In s scaleTrajectory -> PrimFloat.leb MIN_SCALE s = true.
Proof.
  intros T. vm_compute in T.
  repeat (destruct T as [ <- | T ]; [ reflexivity | ]).
  destruct T.
Qed.

Lemma step_scaleTrajectory (h : Hook float) (e : HookEvent float) :
  In (scale (state h)) scaleTrajectory ->
  In (scale (state (step h e))) scaleTrajectory.
Proof.
  intros T. destruct e; cbn [step].
  - unfold handleClick. destruct (isComplete h); [ exact T | ].
    destruct (_ && _); cbn [state scale]; now apply scaleTrajectory_click.
  - unfold handleHover. destruct (isComplete h); exact T.
  - unfold confirmDialog. destruct (_ <? _); exact T.
  - exact T.
  - now left.
  - exact T.
Qed.

Lemma run_scaleTrajectory evs (h : Hook float) :
  In (scale (state h)) scaleTrajectory ->
  In (scale (state (run evs h))) scaleTrajectory.
Proof.
  unfold run. revert h.
  induction evs as [ | e evs IH ]; intros h T; cbn [fold_left]; [ exact T | ].
  apply IH, step_scaleTrajectory, T.
Qed.

Lemma run_clicks n (h : Hook float) :
  run (repeat EvClick n) h = Nat.iter n handleClick h.
Proof.
  revert h. induction n as [ | n IH ]; intros h; [ reflexivity | ].
  change (run (repeat EvClick (S n)) h) with (run (repeat EvClick n) (handleClick h)).
  rewrite IH. symmetry. apply Nat.iter_succ_r.
Qed.

(** C6.  From the initial state, after any number of clicks [scale] is at
    least [MIN_SCALE = 0.5], and after ten clicks it is 0.5 exactly; the
    floor also holds along every sequence of hook operations. *)
Theorem scale_never_below_floor :
  (MIN_SCALE : float) = 0.5%float /\
  (forall n,
     PrimFloat.leb MIN_SCALE (scale (state (Nat.iter n handleClick initialHook)))
     = true) /\
  scale (state (Nat.iter 10 handleClick initialHook)) = 0.5%float /\
  (forall evs : list (HookEvent float),
     PrimFloat.leb MIN_SCALE (scale (state (run evs initialHook))) = true).
Proof.
  assert (forall evs : list (HookEvent float),
            PrimFloat.leb MIN_SCALE (scale (state (run evs initialHook))) = true)
    as Floor.
  { intros evs. apply scaleTrajectory_floor, run_scaleTrajectory. now left. }
  split; [ reflexivity | ].
  split; [ | split; [ reflexivity | exact Floor ] ].
  intros n. rewrite <- run_clicks. apply Floor.
Qed.

(** ** What the runs above show *)

(** C1, as stated, fails: in the completed state, reached by one click and
    three confirmations, [confirmDialog] opens the first dialog again, and
    [cancelDialog] then changes [dialogStage] back, both with
    [isComplete = true]. *)
Lemma confirmDialog_after_completion :
  isComplete completed = true /\
  dialogStage (state completed) = 0 /\
  dialogStage (state (confirmDialog completed)) = 1 /\
  isComplete (confirmDialog completed) = true /\
  dialogStage (state (cancelDialog (confirmDialog completed))) = 0.
Proof. repeat split. Qed.

Lemma complete_is_terminal_for_input_witness :
  isComplete completed = true /\
  handleClick completed = completed /\
  handleHover 0.5%float completed = completed /\
  isComplete (confirmDialog completed) = true /\
  sameButDialogStage completed (confirmDialog completed) /\
  isComplete (cancelDialog completed) = true /\
  sameButDialogStage completed (cancelDialog completed) /\
  (dialogStage (state completed) = 0 -> cancelDialog completed = completed) /\
  isComplete (resetHoverOffset completed) = true /\
  isComplete (resetTroll completed) = false /\
  (forall evs : list (HookEvent float),
     forallb (fun e => negb (isResetTroll e)) evs = true ->
     isComplete (run evs completed) = true).
Proof.
  split; [ reflexivity | ].
  apply (complete_is_terminal_for_input completed 0.5%float). reflexivity.
Defined.

(** C2, as stated, fails: after one click and a cancel the count already
    meets the threshold and no dialog is open, and the next click opens the
    first dialog again. *)
Lemma click_after_cancel_reopens_dialog :
  REQUIRED_CLICKS <= clickCount (state cancelledAfterClick) /\
  isComplete cancelledAfterClick = false /\
  dialogStage (state cancelledAfterClick) = 0 /\
  clickCount (state (handleClick cancelledAfterClick)) = 2 /\
  dialogStage (state (handleClick cancelledAfterClick)) = 1.
Proof. repeat split. vm_compute. discriminate. Qed.

Lemma confirmDialog_sequence_witness :
  dialogStage (state clickedOnce) = 1 /\
  isComplete (Nat.iter 3 confirmDialog clickedOnce) = true /\
  dialogStage (state (Nat.iter 3 confirmDialog clickedOnce)) = 0 /\
  clickCount (state (Nat.iter 3 confirmDialog clickedOnce))
    = clickCount (state clickedOnce) /\
  forall k, (k < 3)%nat ->
    isComplete (Nat.iter k confirmDialog clickedOnce) = isComplete clickedOnce.
Proof.
  split; [ reflexivity | ].
  apply (confirmDialog_sequence clickedOnce). reflexivity.
Defined.

Lemma handleClick_while_dialog_open_witness :
  isComplete clickedOnce = false /\
  0 < dialogStage (state clickedOnce) /\
  ROTATION_INCREMENT = 15 /\
  clickCount (state (handleClick clickedOnce))
    = clickCount (state clickedOnce) + 1 /\
  rotation (state (handleClick clickedOnce))
    = rotation (state clickedOnce) + ROTATION_INCREMENT /\
  scale (state (handleClick clickedOnce))
    = Math_max MIN_SCALE (num_sub (scale (state clickedOnce)) SCALE_DECREMENT) /\
  dialogStage (state (handleClick clickedOnce))
    = dialogStage (state clickedOnce) /\
  hoverEscapeOffset (state (handleClick clickedOnce))
    = hoverEscapeOffset (state clickedOnce) /\
  escapeDirection (state (handleClick clickedOnce))
    = escapeDirection (state clickedOnce) /\
  escapeCount (state (handleClick clickedOnce))
    = escapeCount (state clickedOnce) /\
  isComplete (handleClick clickedOnce) = false.
Proof.
  split; [ reflexivity | ].
  split; [ reflexivity | ].
  apply (handleClick_while_dialog_open clickedOnce); reflexivity.
Defined.

(** ** The hover escape, on exact rationals *)








(** The same ranges on binary64 numbers, at the two ends of what
    [Math.random()] returns (0 and the largest double below 1), before and
    after the button is tired. *)
Example hover_binary64_extremes :
  let top := 0x1.fffffffffffffp-1%float in
  let tired := run (repeat (EvHover top) 4) initialHook in
  let offset r h := x (hoverEscapeOffset (state (handleHover r h))) in
  offset 0%float initialHook = (-80)%float /\
  PrimFloat.leb 80 (PrimFloat.abs (offset top initialHook)) = true /\
  PrimFloat.leb (PrimFloat.abs (offset top initialHook)) 120 = true /\
  escapeCount (state tired) = 4 /\
  offset 0%float tired = (-15)%float /\
  PrimFloat.leb 15 (PrimFloat.abs (offset top tired)) = true /\
  PrimFloat.leb (PrimFloat.abs (offset top tired)) 25 = true.
Proof. vm_compute. repeat split. Qed.

(** * Further properties of the hook *)

Section HookInvariants.
Context {num : Type} `{JsNumber num}.
Implicit Types h : Hook num.

Lemma run_cons e evs h : run (e :: evs) h = run evs (step h e).
Proof. reflexivity. Qed.

Lemma run_app evs evs' h : run (evs ++ evs') h = run evs' (run evs h).
Proof. unfold run. apply fold_left_app. Qed.

(** An invariant of [step] that holds initially holds after every trace. *)
Lemma run_invariant (P : Hook num -> Prop) :
  (forall h e, P h -> P (step h e)) ->
  forall evs h, P h -> P (run evs h).
Proof.
  intros Step evs.
  induction evs as [ | e evs IH ]; intros h Ph; [ exact Ph | ].
  rewrite run_cons. apply IH, Step, Ph.
Qed.

Lemma handleClick_stage h :
  dialogStage (state (handleClick h)) = 1 \/
  dialogStage (state (handleClick h)) = dialogStage (state h).
Proof.
  unfold handleClick. destruct (isComplete h); [ now right | ].
  destruct (_ && _); cbn; [ now left | now right ].
Qed.

Lemma step_stage_ok h e : stage_ok h -> stage_ok (step h e).
Proof.
  unfold stage_ok. intros S.
  destruct e; cbn [step].
  - destruct (handleClick_stage h) as [ -> | -> ]; lia.
  - unfold handleHover. destruct (isComplete h); cbn; lia.
  - destruct (confirmDialog_step h) as [-> _]. cbv zeta.
    destruct (3 <? dialogStage (state h) + 1) eqn:E; [ lia | ].
    apply Z.ltb_ge in E. lia.
  - cbn. lia.
  - cbn. lia.
  - cbn. lia.
Qed.

Lemma step_rotation_ok h e : rotation_ok h -> rotation_ok (step h e).
Proof.
  unfold rotation_ok, ROTATION_INCREMENT. intros R.
  destruct e; cbn [step].
  - unfold handleClick, ROTATION_INCREMENT.
    destruct (isComplete h); [ exact R | ].
    destruct (_ && _); cbn; lia.
  - unfold handleHover. destruct (isComplete h); cbn; exact R.
  - unfold confirmDialog. destruct (_ <? _); cbn; exact R.
  - exact R.
  - cbn. lia.
  - exact R.
Qed.

(** X1.  Whatever is done to a freshly mounted hook, [dialogStage] is 0, 1,
    2 or 3, and [currentMessage] is [null] at stage 0 and the message of
    that number at the other stages. *)
Theorem dialogStage_names_a_message (evs : list (HookEvent num)) :
  (dialogStage (state (run evs initialHook)) = 0 /\
   currentMessage (run evs initialHook) = None) \/
  (dialogStage (state (run evs initialHook)) = 1 /\
   currentMessage (run evs initialHook) = Some "Are you SURE?"%string) \/
  (dialogStage (state (run evs initialHook)) = 2 /\
   currentMessage (run evs initialHook) = Some "Really?"%string) \/
  (dialogStage (state (run evs initialHook)) = 3 /\
   currentMessage (run evs initialHook) = Some "But what if you're wrong?"%string).
Proof.
  assert (stage_ok (run evs initialHook)) as S.
  { apply run_invariant; [ apply step_stage_ok | cbv; split; discriminate ]. }
  unfold stage_ok in S. unfold currentMessage.
  destruct (dialogStage (state (run evs initialHook))) as [ | [ [ | | ] | [ | | ] | ] | ];
    cbn; try lia; tauto.
Qed.

Lemma run_repeat_click n h :
  run (repeat EvClick n) h = Nat.iter n handleClick h.
Proof.
  revert h. induction n as [ | n IH ]; intros h; [ reflexivity | ].
  cbn [repeat]. rewrite run_cons, IH.
  change (step h EvClick) with (handleClick h). symmetry. apply Nat.iter_succ_r.
Qed.

Lemma clicks_not_complete n h :
  isComplete h = false -> isComplete (Nat.iter n handleClick h) = false.
Proof.
  intros C. induction n as [ | n IH ]; [ exact C | ].
  rewrite Nat.iter_succ. now rewrite handleClick_isComplete.
Qed.

Lemma clicks_count n h :
  isComplete h = false ->
  clickCount (state (Nat.iter n handleClick h)) = clickCount (state h) + Z.of_nat n.
Proof.
  intros C. induction n as [ | n IH ]; [ cbn; lia | ].
  rewrite Nat.iter_succ. unfold handleClick at 1.
  rewrite clicks_not_complete by exact C.
  destruct (_ && _); cbn [state clickCount]; lia.
Qed.

(** X2.  In every state a freshly mounted hook can reach, [rotation] is
    [ROTATION_INCREMENT] times [clickCount]; [k] clicks on a fresh hook give
    [clickCount = k] and [rotation = 15 k]. *)
Theorem rotation_follows_clickCount :
  (forall evs : list (HookEvent num),
     0 <= clickCount (state (run evs initialHook)) /\
     rotation (state (run evs initialHook))
       = ROTATION_INCREMENT * clickCount (state (run evs initialHook))) /\
  (forall k : nat,
     clickCount (state (Nat.iter k handleClick initialHook)) = Z.of_nat k /\
     rotation (state (Nat.iter k handleClick initialHook)) = 15 * Z.of_nat k).
Proof.
  assert (forall evs : list (HookEvent num), rotation_ok (run evs initialHook)) as R.
  { intros evs. apply run_invariant; [ apply step_rotation_ok | ].
    cbv. split; [ discriminate | reflexivity ]. }
  split; [ exact R | ].
  intros k.
  assert (clickCount (state (Nat.iter k handleClick initialHook)) = Z.of_nat k) as K.
  { rewrite clicks_count by reflexivity. cbn. lia. }
  split; [ exact K | ].
  rewrite <- K, <- run_repeat_click. apply R.
Qed.

(** The stage is at most one ahead of the confirmations counted so far, and
    a complete hook has seen three of them. *)
Lemma run_confirmations evs h (c : nat) :
  (dialogStage (state h) <= Z.of_nat c + 1 /\
   (isComplete h = true -> (3 <= c)%nat)) ->
  dialogStage (state (run evs h)) <= Z.of_nat (c + confirmations evs) + 1 /\
  (isComplete (run evs h) = true -> (3 <= c + confirmations evs)%nat).
Proof.
  revert h c.
  induction evs as [ | e evs IH ]; intros h c [S C].
  { unfold confirmations. cbn. rewrite Nat.add_0_r. now split. }
  rewrite run_cons.
  assert (confirmations (e :: evs)
          = ((if isConfirm e then 1 else 0) + confirmations evs)%nat) as ->.
  { unfold confirmations. cbn [List.filter]. now destruct (isConfirm e). }
  rewrite Nat.add_assoc. apply IH.
  destruct e; cbn [step isConfirm].
  - rewrite handleClick_isComplete.
    split; [ | intros T; specialize (C T); lia ].
    destruct (handleClick_stage h) as [ -> | -> ]; lia.
  - rewrite handleHover_isComplete.
    split; [ | intros T; specialize (C T); lia ].
    unfold handleHover. destruct (isComplete h); cbn; lia.
  - destruct (confirmDialog_step h) as [-> ->]. cbv zeta.
    destruct (3 <? dialogStage (state h) + 1) eqn:E.
    + apply Z.ltb_lt in E. split; lia.
    + split; [ lia | intros T; specialize (C T); lia ].
  - cbn. split; [ lia | intros T; specialize (C T); lia ].
  - cbn. split; [ lia | discriminate ].
  - cbn. split; [ lia | intros T; specialize (C T); lia ].
Qed.

(** X3.  A freshly mounted hook is complete only after [confirmDialog] has
    been called at least three times. *)
Theorem completion_needs_three_confirmations (evs : list (HookEvent num)) :
  isComplete (run evs initialHook) = true -> (3 <= confirmations evs)%nat.
Proof.
  intros C.
  destruct (run_confirmations evs initialHook 0) as [_ T].
  - cbn. split; [ lia | discriminate ].
  - apply T, C.
Qed.

(** X4.  A click and a hover act on different fields: in either order they
    give the same state, and so do a click and [resetHoverOffset]. *)
Theorem click_commutes_with_pointer random h :
  handleClick (handleHover random h) = handleHover random (handleClick h) /\
  handleClick (resetHoverOffset h) = resetHoverOffset (handleClick h).
Proof.
  destruct h as [[c r s d o e n] b].
  unfold handleClick, handleHover, resetHoverOffset.
  destruct b; cbn; [ split; reflexivity | ].
  destruct (_ && _); cbn; split; reflexivity.
Qed.

Lemma step_frozen h e :
  isComplete h = true -> isResetTroll e = false ->
  isComplete (step h e) = true /\
  clickCount (state (step h e)) = clickCount (state h) /\
  rotation (state (step h e)) = rotation (state h) /\
  scale (state (step h e)) = scale (state h).
Proof.
  intros C R.
  destruct e; cbn [step]; try discriminate R.
  - rewrite handleClick_complete by exact C. now repeat split.
  - rewrite handleHover_complete by exact C. now repeat split.
  - unfold confirmDialog. destruct (_ <? _); cbn; now repeat split.
  - now repeat split.
  - now repeat split.
Qed.

Lemma run_frozen (evs : list (HookEvent num)) h :
  isComplete h = true ->
  forallb (fun e => negb (isResetTroll e)) evs = true ->
  isComplete (run evs h) = true /\
  clickCount (state (run evs h)) = clickCount (state h) /\
  rotation (state (run evs h)) = rotation (state h) /\
  scale (state (run evs h)) = scale (state h).
Proof.
  revert h.
  induction evs as [ | e evs IH ]; intros h C N; [ now repeat split | ].
  cbn [forallb] in N. apply andb_prop in N. destruct N as [Ne N].
  apply negb_true_iff in Ne.
  destruct (step_frozen h e C Ne) as (C' & K & R & S).
  rewrite run_cons. rewrite <- K, <- R, <- S. now apply IH.
Qed.

(** X5.  Once the hook is complete, no sequence of operations that leaves
    out [resetTroll] changes [isComplete], [clickCount], [rotation] or
    [scale]. *)
Theorem completion_is_permanent (evs : list (HookEvent num)) h :
  isComplete h = true ->
  forallb (fun e => negb (isResetTroll e)) evs = true ->
  isComplete (run evs h) = true /\
  clickCount (state (run evs h)) = clickCount (state h) /\
  rotation (state (run evs h)) = rotation (state h) /\
  scale (state (run evs h)) = scale (state h).
Proof. apply run_frozen. Qed.

(** X6.  After a cancel, one more click on an incomplete hook shows the
    first message again, whatever the hook has been through. *)
Theorem click_after_cancel_restarts (evs : list (HookEvent num)) :
  isComplete (run evs initialHook) = false ->
  dialogStage (state (handleClick (cancelDialog (run evs initialHook)))) = 1 /\
  currentMessage (handleClick (cancelDialog (run evs initialHook)))
    = Some "Are you SURE?"%string.
Proof.
  intros C.
  assert (dialogStage (state (handleClick (cancelDialog (run evs initialHook)))) = 1)
    as S.
  { unfold handleClick. cbn [cancelDialog isComplete state dialogStage clickCount].
    rewrite C.
    assert (rotation_ok (run evs initialHook)) as [K _].
    { apply run_invariant; [ apply step_rotation_ok | ]. cbv. split; [ discriminate | reflexivity ]. }
    assert ((REQUIRED_CLICKS <=? clickCount (state (run evs initialHook)) + 1) = true)
      as -> by (apply Z.leb_le; unfold REQUIRED_CLICKS; lia).
    reflexivity. }
  split; [ exact S | ].
  unfold currentMessage. rewrite S. reflexivity.
Qed.

End HookInvariants.

(** * The mounted button *)

Section MountedProperties.
Context {num : Type} `{JsNumber num}.
Implicit Types (h : Hook num) (m : Mounted num) (p : Props).

Lemma currentMessage_open h : currentMessage h <> None -> 0 < dialogStage (state h).
Proof.
  unfold currentMessage.
  destruct (0 <? dialogStage (state h)) eqn:E; [ | now cbn ].
  intros _. now apply Z.ltb_lt.
Qed.

(** What an event does to the hook: nothing, or one operation of the hook;
    a confirmation only on Yes in an open dialog, a click only on an
    activation of the button. *)
Lemma uiStep_cases p h e :
  uiStep p h e = h \/
  (uiStep p h e = handleClick h /\ isActivation (User p e) = true) \/
  (exists random, uiStep p h e = handleHover random h) \/
  (uiStep p h e = confirmDialog h /\ isYes (User p e) = true
     /\ 0 < dialogStage (state h)) \/
  uiStep p h e = cancelDialog h \/
  uiStep p h e = resetHoverOffset h.
Proof.
  unfold uiStep, uiHandlers, TrollDoneButton. cbn [useTrollButtonContext useContext head].
  destruct (p_isCompleted p).
  { destruct e; [ now left | now left | now do 5 right ]. }
  destruct e as [ g random | g | ].
  - destruct g; cbn; [ right; left; now split .. | right; right; left; now exists random ].
  - cbn [isOpen]. unfold ConfirmationDialog.
    destruct (bool_decide (currentMessage h <> None)) eqn:O; [ | now left ].
    apply bool_decide_eq_true in O. apply currentMessage_open in O.
    destruct g as [ | | [ | ] ]; cbn.
    + do 3 right. left. now repeat split.
    + now do 4 right; left.
    + now left.
    + now do 4 right; left.
  - now do 5 right.
Qed.

Lemma uiStep_isComplete p h e :
  isComplete h = true -> isComplete (uiStep p h e) = true.
Proof.
  intros C.
  destruct (uiStep_cases p h e)
    as [ -> | [ [-> _] | [ [r ->] | [ [-> _] | [ -> | -> ] ] ] ] ].
  - exact C.
  - now rewrite handleClick_isComplete.
  - now rewrite handleHover_isComplete.
  - unfold confirmDialog. now destruct (_ <? _).
  - exact C.
  - exact C.
Qed.

Lemma uiStep_progress p h e a c :
  progress h a c ->
  progress (uiStep p h e)
           (a + if isActivation (User p e) then 1 else 0)
           (c + if isYes (User p e) then 1 else 0).
Proof.
  intros P.
  assert (forall a' c', (a <= a')%nat -> (c <= c')%nat -> progress h a' c') as Weaken.
  { intros a' c' A' C'. unfold progress in *. intuition lia. }
  destruct (uiStep_cases p h e)
    as [ -> | [ [-> A] | [ [r ->] | [ [-> [Y O]] | [ -> | -> ] ] ] ] ].
  - apply Weaken; lia.
  - rewrite A. clear Weaken. unfold progress in *. rewrite handleClick_isComplete.
    unfold handleClick. destruct (isComplete h) eqn:Ch.
    + intuition lia.
    + destruct (_ && _); cbn [state clickCount dialogStage];
        intuition (try discriminate; lia).
  - clear Weaken. unfold progress in *. rewrite handleHover_isComplete.
    unfold handleHover. destruct (isComplete h) eqn:Ch.
    + intuition lia.
    + cbn [state clickCount dialogStage]. intuition (try discriminate; lia).
  - rewrite Y. clear Weaken. unfold progress in *.
    destruct (confirmDialog_step h) as [-> ->]. cbv zeta.
    destruct (confirmDialog_frame h) as (-> & _).
    destruct (3 <? dialogStage (state h) + 1) eqn:E.
    + apply Z.ltb_lt in E. intuition lia.
    + apply Z.ltb_ge in E. intuition lia.
  - clear Weaken. unfold progress in *.
    cbn [cancelDialog state clickCount dialogStage isComplete]. intuition lia.
  - clear Weaken. unfold progress in *.
    cbn [resetHoverOffset state clickCount dialogStage isComplete]. intuition lia.
Qed.

Lemma happen_hook st a :
  m_hook (fst (happen st a))
    = match a with
      | User p e => uiStep p (m_hook (fst st)) e
      | Render _ => m_hook (fst st)
      end.
Proof.
  destruct st as [m calls]. destruct a as [ p e | p ]; cbn [happen fst];
    unfold completionEffect; cbn [m_hook m_deps];
    destruct (decide _); reflexivity.
Qed.

Lemma lifetime_progress_from (trace : list (Happening num)) st a c :
  progress (m_hook (fst st)) a c ->
  progress (m_hook (fst (fold_left happen trace st)))
           (a + activations trace) (c + yesPresses trace).
Proof.
  revert st a c.
  induction trace as [ | x trace IH ]; intros st a c P.
  { unfold activations, yesPresses. cbn. now rewrite !Nat.add_0_r. }
  cbn [fold_left].
  assert (activations (x :: trace)
          = ((if isActivation x then 1 else 0) + activations trace)%nat) as ->.
  { unfold activations. cbn [List.filter]. now destruct (isActivation x). }
  assert (yesPresses (x :: trace)
          = ((if isYes x then 1 else 0) + yesPresses trace)%nat) as ->.
  { unfold yesPresses. cbn [List.filter]. now destruct (isYes x). }
  rewrite !Nat.add_assoc. apply IH. rewrite happen_hook.
  destruct x as [ p e | p ].
  - now apply uiStep_progress.
  - cbn [isActivation isYes]. now rewrite !Nat.add_0_r.
Qed.

Lemma mount_hook p : m_hook (fst (mount p)) = initialHook.
Proof. unfold mount, completionEffect. now destruct (decide _). Qed.

Lemma lifetime_progress p (trace : list (Happening num)) :
  progress (m_hook (fst (lifetime p trace))) (activations trace) (yesPresses trace).
Proof.
  unfold lifetime.
  apply (lifetime_progress_from trace (mount p) 0 0).
  rewrite mount_hook. unfold progress. cbn. intuition (try discriminate; lia).
Qed.

(** The callback is only ever called by a complete hook. *)
Lemma completionEffect_called p m :
  snd (completionEffect p m) <> [] -> isComplete (m_hook m) = true.
Proof.
  unfold completionEffect. destruct (decide _); cbn; [ congruence | ].
  destruct (isComplete (m_hook m)); congruence.
Qed.

Lemma completionEffect_hook p m : m_hook (fst (completionEffect p m)) = m_hook m.
Proof. unfold completionEffect. now destruct (decide _). Qed.

Lemma happen_called st a :
  (snd st <> [] -> isComplete (m_hook (fst st)) = true) ->
  snd (happen st a) <> [] -> isComplete (m_hook (fst (happen st a))) = true.
Proof.
  intros Before Called. rewrite happen_hook.
  destruct st as [m calls]. cbn [fst snd] in *.
  destruct a as [ p e | p ]; cbn [happen] in Called.
  - destruct (completionEffect p _) as [m' called] eqn:E. cbn [snd] in Called.
    destruct calls as [ | c calls ].
    + cbn in Called.
      apply (completionEffect_called p
               {| m_hook := uiStep p (m_hook m) e; m_deps := m_deps m |}).
      now rewrite E.
    + apply uiStep_isComplete, Before. discriminate.
  - destruct (completionEffect p m) as [m' called] eqn:E. cbn [snd] in Called.
    destruct calls as [ | c calls ].
    + cbn in Called. apply (completionEffect_called p m). now rewrite E.
    + apply Before. discriminate.
Qed.

Lemma lifetime_called p (trace : list (Happening num)) :
  snd (lifetime p trace) <> [] ->
  isComplete (m_hook (fst (lifetime p trace))) = true.
Proof.
  unfold lifetime.
  assert (snd (mount p) <> [] -> isComplete (m_hook (fst (mount p))) = true) as M.
  { unfold mount, completionEffect. destruct (decide _); cbn; congruence. }
  revert M. generalize (mount p).
  induction trace as [ | a trace IH ]; intros st M; [ exact M | ].
  cbn [fold_left]. apply IH. now apply happen_called.
Qed.

(** X7.  The owner's callback is called only after the button has been
    activated at least once and Yes has been pressed at least three times
    in its dialog. *)
Theorem onComplete_needs_activation_and_three_yes p (trace : list (Happening num)) :
  snd (lifetime p trace) <> [] ->
  (1 <= activations trace)%nat /\ (3 <= yesPresses trace)%nat.
Proof.
  intros Called. apply lifetime_called in Called.
  destruct (lifetime_progress p trace) as (K & _ & _ & C).
  specialize (C Called). lia.
Qed.

Lemma completionEffect_once p m calls h' :
  called_once (p_onComplete p) (m, calls) ->
  (isComplete (m_hook m) = true -> isComplete h' = true) ->
  called_once (p_onComplete p)
    (fst (completionEffect p {| m_hook := h'; m_deps := m_deps m |}),
     calls ++ snd (completionEffect p {| m_hook := h'; m_deps := m_deps m |})).
Proof.
  unfold called_once, completionEffect. cbn [fst snd m_hook m_deps].
  intros [D C] Mono. rewrite D, C.
  destruct (decide _) as [ Same | Changed ]; cbn [fst snd m_hook m_deps].
  - injection Same as Same. rewrite Same, app_nil_r. now split.
  - destruct (isComplete (m_hook m)) eqn:Before.
    + rewrite Mono in Changed by reflexivity. congruence.
    + destruct (isComplete h'); [ now split | congruence ].
Qed.

Lemma happen_once cb st a :
  p_onComplete (propsOf a) = cb -> called_once cb st -> called_once cb (happen st a).
Proof.
  intros <- Once. destruct st as [m calls].
  destruct a as [ p e | p ]; cbn [happen propsOf] in *.
  - destruct (completionEffect p _) as [m' called] eqn:E.
    pose proof (completionEffect_once p m calls (uiStep p (m_hook m) e) Once) as N.
    rewrite E in N. apply N. apply uiStep_isComplete.
  - destruct (completionEffect p m) as [m' called] eqn:E.
    pose proof (completionEffect_once p m calls (m_hook m) Once) as N.
    destruct m as [h d]. cbn [m_hook m_deps] in N.
    rewrite E in N. now apply N.
Qed.

(** X8.  If every render passes the same callback, a mounted button calls
    it exactly once if its hook has become complete, and not at all
    otherwise, whatever the user and the owner do. *)
Theorem onComplete_called_exactly_once p (trace : list (Happening num)) :
  Forall (fun a => p_onComplete (propsOf a) = p_onComplete p) trace ->
  snd (lifetime p trace)
    = if isComplete (m_hook (fst (lifetime p trace)))
      then [p_onComplete p] else [].
Proof.
  intros Stable.
  enough (called_once (p_onComplete p) (lifetime p trace)) as [_ C] by exact C.
  unfold lifetime.
  assert (called_once (p_onComplete p) (mount p)) as M.
  { unfold called_once, mount, completionEffect. cbn [m_hook m_deps].
    destruct (decide _); [ discriminate | now split ]. }
  revert M. generalize (mount p).
  induction Stable as [ | a trace Sa _ IH ]; intros st M; [ exact M | ].
  cbn [fold_left]. apply IH. now apply happen_once.
Qed.

End MountedProperties.

(** * The list of todos *)

Lemma trimStart_split (s : JsString) :
  exists pre, s = pre ++ trimStart s /\ forallb isWhiteSpace pre = true.
Proof.
  induction s as [ | c s (pre & E & W) ]; [ now exists [] | ].
  cbn [trimStart]. destruct (isWhiteSpace c) eqn:C.
  - exists (c :: pre). cbn. rewrite C, W. split; [ now f_equal | reflexivity ].
  - now exists [].
Qed.

Lemma trimStart_head (s : JsString) c :
  head (trimStart s) = Some c -> isWhiteSpace c = false.
Proof.
  induction s as [ | d s IH ]; [ discriminate | ].
  cbn [trimStart]. destruct (isWhiteSpace d) eqn:D; [ exact IH | ].
  cbn. now intros [= <-].
Qed.

Lemma trimStart_fixed (s : JsString) :
  (forall c, head s = Some c -> isWhiteSpace c = false) -> trimStart s = s.
Proof.
  destruct s as [ | c s ]; [ reflexivity | ].
  intros W. cbn. now rewrite (W c).
Qed.

Lemma trimStart_nil (s : JsString) :
  isEmpty (trimStart s) = forallb isWhiteSpace s.
Proof.
  induction s as [ | c s IH ]; [ reflexivity | ].
  cbn. now destruct (isWhiteSpace c).
Qed.

Lemma last_rev_head {A : Type} (l : list A) : last (rev l) = head l.
Proof.
  destruct l as [ | a l ]; [ reflexivity | ].
  cbn [rev]. now rewrite last_snoc.
Qed.

Lemma head_rev_last {A : Type} (l : list A) : head (rev l) = last l.
Proof. rewrite <- (rev_involutive l) at 2. now rewrite last_rev_head. Qed.

Lemma trimEnd_split (s : JsString) :
  exists post, s = trimEnd s ++ post /\ forallb isWhiteSpace post = true.
Proof.
  unfold trimEnd. destruct (trimStart_split (rev s)) as (pre & E & W).
  exists (rev pre). split.
  - rewrite <- rev_app_distr, <- E. now rewrite rev_involutive.
  - rewrite forallb_forall in *. intros c I. apply W. now apply in_rev.
Qed.

Lemma trimEnd_last (s : JsString) c :
  last (trimEnd s) = Some c -> isWhiteSpace c = false.
Proof. unfold trimEnd. rewrite last_rev_head. apply trimStart_head. Qed.

Lemma trimEnd_fixed (s : JsString) :
  (forall c, last s = Some c -> isWhiteSpace c = false) -> trimEnd s = s.
Proof.
  intros W. unfold trimEnd. rewrite trimStart_fixed; [ apply rev_involutive | ].
  intros c. rewrite head_rev_last. apply W.
Qed.

(** Trimming the end keeps a first code unit that is no white space. *)
Lemma trimEnd_head (s : JsString) c :
  head s = Some c -> isWhiteSpace c = false -> head (trimEnd s) = Some c.
Proof.
  intros Hd W. destruct (trimEnd_split s) as (post & E & P).
  destruct (trimEnd s) as [ | d t ] eqn:T.
  - cbn in E. subst post. destruct s as [ | c' s ]; [ discriminate | ].
    cbn in Hd, P. injection Hd as ->. rewrite W in P. discriminate.
  - rewrite E in Hd. exact Hd.
Qed.

Lemma trim_head (s : JsString) c :
  head (trim s) = Some c -> isWhiteSpace c = false.
Proof.
  unfold trim. intros Hd.
  destruct (trimEnd_split (trimStart s)) as (post & E & _).
  apply (trimStart_head s). rewrite E.
  destruct (trimEnd (trimStart s)); [ discriminate | exact Hd ].
Qed.

Lemma trim_last (s : JsString) c :
  last (trim s) = Some c -> isWhiteSpace c = false.
Proof. apply trimEnd_last. Qed.

Lemma trim_idempotent (s : JsString) : trim (trim s) = trim s.
Proof.
  unfold trim at 1.
  rewrite (trimStart_fixed (trim s)) by apply trim_head.
  apply trimEnd_fixed, trim_last.
Qed.

Lemma forallb_app_true {A : Type} (f : A -> bool) (l l' : list A) :
  forallb f l = true -> forallb f l' = true -> forallb f (l ++ l') = true.
Proof. intros L L'. rewrite forallb_app. now rewrite L, L'. Qed.

Lemma trim_nil (s : JsString) : isEmpty (trim s) = forallb isWhiteSpace s.
Proof.
  unfold trim.
  destruct (trimStart_split s) as (pre & E & W).
  destruct (trimEnd_split (trimStart s)) as (post & E' & W').
  destruct (trimEnd (trimStart s)) as [ | c t ] eqn:T.
  - cbn in E'. cbn [isEmpty]. symmetry. rewrite E, E'.
    now apply forallb_app_true.
  - cbn [isEmpty]. symmetry. apply not_true_is_false. intros All.
    assert (isWhiteSpace c = false) as C.
    { apply (trim_head s). unfold trim. now rewrite T. }
    rewrite E, E' in All. rewrite forallb_app in All.
    apply andb_prop in All. destruct All as [_ All].
    cbn in All. rewrite C in All. discriminate.
Qed.

(** X9.  Submitting the input of the form: white space only (or nothing)
    changes neither the list nor the input; anything else appends one
    incomplete todo whose text is the input without its leading and trailing
    white space, and clears the input.  The stored text is never empty and
    neither starts nor ends with white space. *)
Theorem submit_adds_trimmed_text uuid now (inputValue : JsString) (todos : list Todo) :
  addTodo uuid now inputValue todos = fst (submit uuid now inputValue todos) /\
  submit uuid now inputValue todos
    = (if forallb isWhiteSpace inputValue then (todos, inputValue)
       else (todos ++ [ {| todo_id := uuid;
                           todo_text := trim inputValue;
                           todo_completed := false;
                           todo_createdAt := now |} ],
             [])) /\
  (exists pre post,
     inputValue = pre ++ trim inputValue ++ post /\
     forallb isWhiteSpace pre = true /\ forallb isWhiteSpace post = true) /\
  (forall c, head (trim inputValue) = Some c -> isWhiteSpace c = false) /\
  (forall c, last (trim inputValue) = Some c -> isWhiteSpace c = false).
Proof.
  split; [ | split; [ | split; [ | split; [ apply trim_head | apply trim_last ] ] ] ].
  - unfold submit, handleSubmit, addTodo. rewrite trim_nil.
    destruct (forallb isWhiteSpace inputValue) eqn:W; [ reflexivity | ].
    cbn [fold_left fst]. rewrite trim_idempotent, trim_nil, W. reflexivity.
  - unfold submit, handleSubmit. rewrite trim_nil.
    destruct (forallb isWhiteSpace inputValue) eqn:W; [ reflexivity | ].
    cbn [fold_left]. unfold addTodo. rewrite trim_idempotent, trim_nil, W.
    reflexivity.
  - destruct (trimStart_split inputValue) as (pre & E & W).
    destruct (trimEnd_split (trimStart inputValue)) as (post & E' & W').
    exists pre, post. split; [ | now split ].
    unfold trim. now rewrite <- E', <- E.
Qed.

Lemma completeTodo_In id (todos : list Todo) t' :
  In t' (completeTodo id todos) ->
  exists t, In t todos /\ laterOf t t' /\
            todo_completed t' = bool_decide (todo_id t = id) || todo_completed t.
Proof.
  unfold completeTodo. rewrite in_map_iff. intros (t & <- & I).
  exists t. split; [ exact I | ].
  destruct (bool_decide (todo_id t = id)); cbn; unfold laterOf; cbn; tauto.
Qed.

Lemma completeTodo_ids id (todos : list Todo) :
  map todo_id (completeTodo id todos) = map todo_id todos.
Proof.
  unfold completeTodo. rewrite map_map.
  apply map_ext. intros t. now destruct (bool_decide _).
Qed.

(** X10.  [completeTodo] keeps the length of the list and every todo's id,
    text and creation time, in order; it completes exactly the todos with
    the given id and un-completes none; doing it twice is doing it once, two
    completions commute, and a missing id changes nothing. *)
Theorem completeTodo_completes_only id id' (todos : list Todo) :
  map todo_id (completeTodo id todos) = map todo_id todos /\
  map todo_text (completeTodo id todos) = map todo_text todos /\
  map todo_createdAt (completeTodo id todos) = map todo_createdAt todos /\
  map todo_completed (completeTodo id todos)
    = map (fun t => bool_decide (todo_id t = id) || todo_completed t) todos /\
  completeTodo id (completeTodo id todos) = completeTodo id todos /\
  completeTodo id (completeTodo id' todos) = completeTodo id' (completeTodo id todos) /\
  (~ In id (map todo_id todos) -> completeTodo id todos = todos).
Proof.
  unfold completeTodo. rewrite !map_map.
  repeat split.
  - apply map_ext. intros t. now destruct (bool_decide _).
  - apply map_ext. intros t. now destruct (bool_decide _).
  - apply map_ext. intros t. now destruct (bool_decide _).
  - apply map_ext. intros t. now destruct (bool_decide _).
  - apply map_ext. intros t.
    destruct (bool_decide (todo_id t = id)) eqn:E; cbn [todo_id]; now rewrite E.
  - apply map_ext. intros t.
    destruct (bool_decide (todo_id t = id)) eqn:E;
      destruct (bool_decide (todo_id t = id')) eqn:E'; cbn [todo_id];
      rewrite ?E, ?E'; reflexivity.
  - intros Missing. rewrite <- (map_id todos) at 2.
    apply map_ext_in. intros t I.
    destruct (bool_decide (todo_id t = id)) eqn:E; [ | reflexivity ].
    apply bool_decide_eq_true in E. exfalso. apply Missing.
    rewrite <- E. now apply in_map.
Qed.

Lemma List_filter_sublist {A : Type} (f : A -> bool) (l : list A) :
  sublist (List.filter f l) l.
Proof.
  induction l as [ | a l IH ]; [ constructor | ].
  cbn. destruct (f a); now constructor.
Qed.

Lemma deleteTodo_In id (todos : list Todo) t :
  In t (deleteTodo id todos) <-> In t todos /\ todo_id t <> id.
Proof.
  unfold deleteTodo. rewrite filter_In, negb_true_iff, bool_decide_eq_false.
  reflexivity.
Qed.

Lemma deleteTodo_ids id (todos : list Todo) :
  map todo_id (deleteTodo id todos)
    = List.filter (fun i => negb (bool_decide (i = id))) (map todo_id todos).
Proof.
  unfold deleteTodo.
  induction todos as [ | t todos IH ]; [ reflexivity | ].
  cbn. destruct (bool_decide (todo_id t = id)); cbn; now rewrite IH.
Qed.

(** X11.  [deleteTodo] removes exactly the todos with the given id and
    keeps the others as they are and in order; a missing id changes nothing;
    deleting twice is deleting once, and deleting commutes with completing
    any todo. *)
Theorem deleteTodo_removes_only id id' (todos : list Todo) :
  (forall t, In t (deleteTodo id todos) <-> In t todos /\ todo_id t <> id) /\
  sublist (deleteTodo id todos) todos /\
  (~ In id (map todo_id todos) -> deleteTodo id todos = todos) /\
  deleteTodo id (deleteTodo id todos) = deleteTodo id todos /\
  deleteTodo id (completeTodo id' todos) = completeTodo id' (deleteTodo id todos).
Proof.
  split; [ intros t; apply deleteTodo_In | ].
  split.
  { apply List_filter_sublist. }
  split.
  { intros Missing. unfold deleteTodo.
    induction todos as [ | t todos IH ]; [ reflexivity | ].
    cbn in *. destruct (bool_decide (todo_id t = id)) eqn:E.
    - apply bool_decide_eq_true in E. tauto.
    - cbn. f_equal. apply IH. tauto. }
  split.
  { unfold deleteTodo.
    induction todos as [ | t todos IH ]; [ reflexivity | ].
    cbn. destruct (bool_decide (todo_id t = id)) eqn:E; cbn; [ exact IH | ].
    rewrite E. cbn. now f_equal. }
  unfold deleteTodo, completeTodo.
  induction todos as [ | t todos IH ]; [ reflexivity | ].
  cbn [map List.filter].
  destruct (bool_decide (todo_id t = id')) eqn:E'; cbn [todo_id];
    destruct (bool_decide (todo_id t = id)) eqn:E; cbn [negb map];
    rewrite ?E'; rewrite IH; reflexivity.
Qed.

Lemma laterOf_refl t : laterOf t t.
Proof. unfold laterOf. tauto. Qed.

Lemma laterOf_trans t t' t'' : laterOf t t' -> laterOf t' t'' -> laterOf t t''.
Proof. unfold laterOf. intuition congruence. Qed.

(** Where a todo of the list after one operation comes from. *)
Lemma applyOp_origin (todos : list Todo) op t' :
  In t' (applyOp todos op) ->
  (exists t, In t todos /\ laterOf t t') \/
  (exists uuid now text,
     op = Add uuid now text /\ isEmpty (trim text) = false /\
     t' = {| todo_id := uuid; todo_text := trim text;
             todo_completed := false; todo_createdAt := now |}).
Proof.
  destruct op as [ uuid now text | id | id ]; cbn [applyOp].
  - unfold addTodo. destruct (isEmpty (trim text)) eqn:E.
    + intros I. left. exists t'. split; [ exact I | apply laterOf_refl ].
    + rewrite in_app_iff. intros [ I | [ <- | [] ] ].
      * left. exists t'. split; [ exact I | apply laterOf_refl ].
      * right. now exists uuid, now, text.
  - intros I. left. apply completeTodo_In in I. destruct I as (t & I & L & _).
    now exists t.
  - intros I. left. apply deleteTodo_In in I. destruct I as [I _].
    exists t'. split; [ exact I | apply laterOf_refl ].
Qed.

Lemma applyOps_origin ops (todos : list Todo) t' :
  In t' (applyOps ops todos) ->
  (exists t, In t todos /\ laterOf t t') \/
  (exists uuid now text,
     In (Add uuid now text) ops /\ isEmpty (trim text) = false /\
     laterOf {| todo_id := uuid; todo_text := trim text;
                todo_completed := false; todo_createdAt := now |} t').
Proof.
  unfold applyOps. revert todos.
  induction ops as [ | op ops IH ]; intros todos I.
  { left. exists t'. split; [ exact I | apply laterOf_refl ]. }
  cbn [fold_left] in I. apply IH in I.
  destruct I as [ (t & I & L) | (uuid & now & text & I & E & L) ].
  - apply applyOp_origin in I.
    destruct I as [ (t0 & I0 & L0) | (uuid & now & text & -> & E & ->) ].
    + left. exists t0. split; [ exact I0 | now apply laterOf_trans with t ].
    + right. exists uuid, now, text. split; [ now left | now split ].
  - right. exists uuid, now, text. split; [ now right | now split ].
Qed.

(** X12.  Whatever sequence of additions, completions and deletions is
    applied, every todo then in the list is a todo of the list before, or
    one an addition created with a trimmed, non-empty text; its id, text and
    creation time are as they were, and if it was completed it still is. *)
Theorem todos_are_never_rewritten ops (todos : list Todo) t' :
  In t' (applyOps ops todos) ->
  (exists t, In t todos /\ laterOf t t') \/
  (exists uuid now text,
     In (Add uuid now text) ops /\ isEmpty (trim text) = false /\
     laterOf {| todo_id := uuid; todo_text := trim text;
                todo_completed := false; todo_createdAt := now |} t').
Proof. apply applyOps_origin. Qed.

Lemma applyOp_NoDup (todos : list Todo) op :
  match op with
  | Add uuid _ _ => ~ In uuid (map todo_id todos)
  | _ => True
  end ->
  NoDup (map todo_id todos) -> NoDup (map todo_id (applyOp todos op)).
Proof.
  destruct op as [ uuid now text | id | id ]; cbn [applyOp]; intros Fresh N.
  - unfold addTodo. destruct (isEmpty (trim text)); [ exact N | ].
    rewrite map_app. cbn. apply NoDup_app. split; [ exact N | ].
    split; [ | apply NoDup_singleton ].
    intros i I J. apply list_elem_of_singleton in J. subst i.
    apply Fresh. now apply list_elem_of_In.
  - now rewrite completeTodo_ids.
  - rewrite deleteTodo_ids. eapply sublist_NoDup; [ exact N | apply List_filter_sublist ].
Qed.

(** X13.  If [uuidv4()] never returns the id of a todo then in the list,
    the ids of the list stay pairwise different under every sequence of
    operations. *)
Theorem ids_stay_distinct ops (todos : list Todo) :
  freshIds ops todos ->
  NoDup (map todo_id todos) ->
  NoDup (map todo_id (applyOps ops todos)).
Proof.
  unfold applyOps. revert todos.
  induction ops as [ | op ops IH ]; intros todos F N; [ exact N | ].
  cbn [fold_left]. cbn [freshIds] in F. destruct F as [F Fs].
  apply IH; [ exact Fs | now apply applyOp_NoDup ].
Qed.

(** * What reaches the hook through the component *)

Section Gating.
Context {num : Type} `{JsNumber num}.
Implicit Types (h : Hook num) (p : Props).

Lemma handleClick_sameHoverFields h : sameHoverFields h (handleClick h).
Proof.
  unfold sameHoverFields, handleClick.
  destruct (isComplete h); [ now repeat split | ].
  destruct (_ && _); now repeat split.
Qed.

Lemma handleHover_sameClickFields random h : sameClickFields h (handleHover random h).
Proof.
  unfold sameClickFields, handleHover.
  destruct (isComplete h) eqn:C; now repeat split.
Qed.

(** X18.  Activating the button, by a click or by Enter or Space on the
    focused button, never moves it: the hover offset, direction and escape
    count stay as they are.  Entering it with the pointer never counts as a
    click: click count, rotation, scale, dialog stage and completion stay as
    they are. *)
Theorem activation_never_displaces p h (g : Gesture) (random : num) :
  match g with
  | PointerEnter => sameClickFields h (uiStep p h (OnButton g random))
  | _ => sameHoverFields h (uiStep p h (OnButton g random))
  end.
Proof.
  unfold uiStep, uiHandlers, TrollDoneButton.
  cbn [useTrollButtonContext useContext head].
  destruct (p_isCompleted p).
  - destruct g; cbn; unfold sameHoverFields, sameClickFields; now repeat split.
  - destruct g; cbn [dispatch onClick onMouseEnter map handlerEvent run fold_left step].
    + apply handleClick_sameHoverFields.
    + apply handleClick_sameHoverFields.
    + apply handleClick_sameHoverFields.
    + apply handleHover_sameClickFields.
Qed.

Lemma uiStep_stage_at_rest p h e :
  (isComplete h = true -> dialogStage (state h) = 0) ->
  isComplete (uiStep p h e) = true -> dialogStage (state (uiStep p h e)) = 0.
Proof.
  intros Rest.
  destruct (uiStep_cases p h e)
    as [ -> | [ [-> _] | [ [r ->] | [ [-> [_ O]] | [ -> | -> ] ] ] ] ].
  - exact Rest.
  - rewrite handleClick_isComplete. intros C.
    now rewrite handleClick_complete by exact C; apply Rest.
  - rewrite handleHover_isComplete. intros C.
    now rewrite handleHover_complete by exact C; apply Rest.
  - destruct (confirmDialog_step h) as [-> ->]. cbv zeta.
    destruct (3 <? dialogStage (state h) + 1); [ reflexivity | ].
    intros C. specialize (Rest C). lia.
  - reflexivity.
  - exact Rest.
Qed.

Lemma lifetime_stage_at_rest p (trace : list (Happening num)) :
  isComplete (m_hook (fst (lifetime p trace))) = true ->
  dialogStage (state (m_hook (fst (lifetime p trace)))) = 0.
Proof.
  unfold lifetime.
  assert (isComplete (m_hook (fst (mount p))) = true ->
          dialogStage (state (m_hook (fst (mount p)))) = 0) as M.
  { rewrite mount_hook. discriminate. }
  revert M. generalize (mount p).
  induction trace as [ | a trace IH ]; intros st M; [ exact M | ].
  cbn [fold_left]. apply IH. rewrite happen_hook.
  destruct a as [ p' e | p' ]; [ now apply uiStep_stage_at_rest | exact M ].
Qed.

Lemma uiStep_terminal p h e :
  isComplete h = true -> dialogStage (state h) = 0 ->
  e <> ResetPosition -> uiStep p h e = h.
Proof.
  intros C S E.
  assert (currentMessage h = None) as Closed.
  { unfold currentMessage. now rewrite S. }
  unfold uiStep, uiHandlers, TrollDoneButton.
  cbn [useTrollButtonContext useContext head].
  destruct (p_isCompleted p).
  { destruct e; [ reflexivity | reflexivity | congruence ]. }
  destruct e as [ g random | g | ]; [ | | congruence ].
  - destruct g; cbn [dispatch onClick onMouseEnter map handlerEvent run fold_left step].
    + now apply handleClick_complete.
    + now apply handleClick_complete.
    + now apply handleClick_complete.
    + now apply handleHover_complete.
  - cbn [isOpen]. rewrite Closed.
    rewrite bool_decide_eq_false_2 by (intros N; now apply N). reflexivity.
Qed.

(** X19.  Through the component, complete is terminal: once the hook of a
    mounted button is complete its dialog is closed ([dialogStage] is 0 and
    there is no current message), and no gesture on the button or on the
    dialog changes the hook any more; only [resetPosition] still acts. *)
Theorem complete_is_terminal_through_the_component p (trace : list (Happening num)) :
  isComplete (m_hook (fst (lifetime p trace))) = true ->
  dialogStage (state (m_hook (fst (lifetime p trace)))) = 0 /\
  currentMessage (m_hook (fst (lifetime p trace))) = None /\
  forall p' e, e <> ResetPosition ->
    uiStep p' (m_hook (fst (lifetime p trace))) e = m_hook (fst (lifetime p trace)).
Proof.
  intros C. pose proof (lifetime_stage_at_rest p trace C) as S.
  split; [ exact S | ].
  split; [ unfold currentMessage; now rewrite S | ].
  intros p' e E. now apply uiStep_terminal.
Qed.

End Gating.

(** * Rows and lists of buttons *)

Section ListProperties.
Context {num : Type} `{JsNumber num}.

(** X14.  When the pointer leaves the row of the button hovered last, every
    mounted button is rendered at offset 0, although the registry still
    names that button. *)
Theorem leaving_the_row_rests_every_button (l : TodoList num) hovers todoId random :
  isActiveButton
    (activeButtonId
       (handleMouseLeave todoId (hoverAll (hovers ++ [(todoId, random)]) l)))
    todoId = true /\
  forall id,
    renderedOffset
      (handleMouseLeave todoId (hoverAll (hovers ++ [(todoId, random)]) l)) id
    = (fun _ => num_lit 0)
      <$> hooks (hoverAll (hovers ++ [(todoId, random)]) l) !! id.
Proof.
  rewrite hoverAll_snoc.
  split.
  { cbn [handleMouseLeave activeButtonId handleButtonHover]. unfold setActiveButton.
    rewrite isActiveButton_Some. now apply bool_decide_eq_true. }
  intros id. rewrite renderedOffset_mounted.
  cbn [handleMouseLeave activeButtonId hooks handleButtonHover].
  unfold setActiveButton. rewrite isActiveButton_Some.
  destruct (decide (id = todoId)) as [ -> | Other ].
  - rewrite lookup_alter_eq, bool_decide_eq_true_2 by reflexivity.
    rewrite <- option_fmap_compose. reflexivity.
  - rewrite lookup_alter_ne by congruence.
    rewrite bool_decide_eq_false_2 by exact Other. reflexivity.
Qed.

Lemma renderEach_returns {A B : Type} (f : A -> Outcome B) (g : A -> B) (l : list A) :
  (forall a, f a = Return (g a)) -> renderEach (map f l) = Return (map g l).
Proof.
  intros F. induction l as [ | a l IH ]; [ reflexivity | ].
  cbn. now rewrite F, IH.
Qed.

(** X15.  The list component never throws, in whatever scope it is
    rendered, while an item rendered with no provider in scope does.  An
    empty list shows the empty state; otherwise every todo gets one row, in
    order, with a Done button if and only if it is not completed, and the
    button is offset only if the registry names it. *)
Theorem TodoList_renders_every_row (todos : list Todo) (outer : Scope)
    (l : TodoList num) :
  (forall todo (h : Hook num),
     TodoItem todo [] h
       = Throw "useTrollButtonContext must be used within a TrollButtonProvider") /\
  TodoListComponent todos outer l
    = Return (if (length todos =? 0)%nat then EmptyState
              else Items (map (itemView l) todos)).
Proof.
  split; [ reflexivity | ].
  unfold TodoListComponent.
  destruct (length todos =? 0)%nat; [ reflexivity | ].
  rewrite (renderEach_returns _ (itemView l)); [ reflexivity | ].
  intros todo. unfold TodoItem, TrollDoneButton, itemView.
  cbn [useTrollButtonContext useContext head].
  destruct (todo_completed todo); reflexivity.
Qed.

End ListProperties.

(** * Fatigue and shrinking *)

Section Hovers.
Context {num : Type} `{JsNumber num}.


End Hovers.



Lemma scaleTrajectory_shrinks (s : float) :
  In s scaleTrajectory ->
  PrimFloat.leb s 1 = true /\
  PrimFloat.leb s s = true /\
  PrimFloat.leb (Math_max MIN_SCALE (num_sub s SCALE_DECREMENT)) s = true.
Proof.
  intros T. vm_compute in T.
  repeat (destruct T as [ <- | T ]; [ vm_compute; now repeat split | ]).
  destruct T.
Qed.

Lemma clicks_at_floor (k : nat) :
  scale (state (Nat.iter (6 + k) handleClick (initialHook (num := float))))
    = 0.5%float.
Proof.
  induction k as [ | k IH ]; [ reflexivity | ].
  replace (6 + S k)%nat with (S (6 + k)) by lia.
  rewrite Nat.iter_succ. unfold handleClick at 1.
  rewrite clicks_not_complete by reflexivity.
  destruct (_ && _); cbn [state scale]; rewrite IH; reflexivity.
Qed.

(** X17.  On binary64 numbers, along every sequence of hook operations on a
    fresh hook [scale] is at most 1 and a click never makes it larger; the
    floor 0.5 is reached at the sixth click (after five clicks [scale] is
    still above it) and kept from then on. *)
Theorem scale_shrinks_to_the_floor :
  (forall evs : list (HookEvent float),
     PrimFloat.leb (scale (state (run evs initialHook))) 1 = true /\
     PrimFloat.leb (scale (state (handleClick (run evs initialHook))))
                   (scale (state (run evs initialHook))) = true) /\
  PrimFloat.ltb 0.5 (scale (state (Nat.iter 5 handleClick initialHook))) = true /\
  (forall n, (6 <= n)%nat ->
     scale (state (Nat.iter n handleClick initialHook)) = 0.5%float).
Proof.
  split.
  { intros evs.
    assert (In (scale (state (run evs initialHook))) scaleTrajectory) as T.
    { apply run_scaleTrajectory. now left. }
    destruct (scaleTrajectory_shrinks _ T) as (One & Refl & Shrinks).
    split; [ exact One | ].
    unfold handleClick. destruct (isComplete (run evs initialHook)); [ exact Refl | ].
    destruct (_ && _); exact Shrinks. }
  split; [ reflexivity | ].
  intros n N. replace n with (6 + (n - 6))%nat by lia. apply clicks_at_floor.
Qed.

(** * The properties at concrete inputs *)

Lemma completion_needs_three_confirmations_witness :
  isComplete (run [EvClick; EvConfirm; EvConfirm; EvConfirm]
                  (initialHook (num := float))) = true /\
  (3 <= confirmations
          ([EvClick; EvConfirm; EvConfirm; EvConfirm] : list (HookEvent float)))%nat.
Proof.
  split; [ reflexivity | ].
  apply (completion_needs_three_confirmations
           ([EvClick; EvConfirm; EvConfirm; EvConfirm] : list (HookEvent float))).
  reflexivity.
Defined.

Lemma completion_is_permanent_witness :
  isComplete completed = true /\
  isComplete (run [EvClick; EvHover 0.5%float; EvConfirm; EvCancel] completed) = true /\
  clickCount (state (run [EvClick; EvHover 0.5%float; EvConfirm; EvCancel] completed))
    = clickCount (state completed) /\
  rotation (state (run [EvClick; EvHover 0.5%float; EvConfirm; EvCancel] completed))
    = rotation (state completed) /\
  scale (state (run [EvClick; EvHover 0.5%float; EvConfirm; EvCancel] completed))
    = scale (state completed).
Proof.
  split; [ reflexivity | ].
  apply (completion_is_permanent
           [EvClick; EvHover 0.5%float; EvConfirm; EvCancel] completed);
    reflexivity.
Defined.

Lemma click_after_cancel_restarts_witness :
  isComplete (run [EvClick; EvClick; EvConfirm] (initialHook (num := float))) = false /\
  dialogStage
    (state (handleClick (cancelDialog
       (run [EvClick; EvClick; EvConfirm] (initialHook (num := float)))))) = 1 /\
  currentMessage
    (handleClick (cancelDialog
       (run [EvClick; EvClick; EvConfirm] (initialHook (num := float)))))
    = Some "Are you SURE?"%string.
Proof.
  split; [ reflexivity | ].
  apply (click_after_cancel_restarts
           ([EvClick; EvClick; EvConfirm] : list (HookEvent float))).
  reflexivity.
Defined.

Lemma onComplete_needs_activation_and_three_yes_witness :
  snd (lifetime sampleProps sampleLifetime) = [7%nat] /\
  (1 <= activations sampleLifetime)%nat /\ (3 <= yesPresses sampleLifetime)%nat.
Proof.
  split; [ reflexivity | ].
  apply (onComplete_needs_activation_and_three_yes sampleProps sampleLifetime).
  vm_compute. discriminate.
Defined.

Lemma onComplete_called_exactly_once_witness :
  Forall (fun a => p_onComplete (propsOf a) = p_onComplete sampleProps) sampleLifetime /\
  snd (lifetime sampleProps sampleLifetime)
    = if isComplete (m_hook (fst (lifetime sampleProps sampleLifetime)))
      then [p_onComplete sampleProps] else [].
Proof.
  assert (Forall (fun a => p_onComplete (propsOf a) = p_onComplete sampleProps)
                 sampleLifetime) as Stable
    by (repeat constructor).
  split; [ exact Stable | ].
  apply (onComplete_called_exactly_once sampleProps sampleLifetime Stable).
Defined.

Lemma todos_are_never_rewritten_witness :
  In {| todo_id := "a"; todo_text := [120%N];
        todo_completed := true; todo_createdAt := 1 |}
     (applyOps sampleOps []) /\
  ((exists t, In t [] /\
      laterOf t {| todo_id := "a"; todo_text := [120%N];
                   todo_completed := true; todo_createdAt := 1 |}) \/
   (exists uuid now text,
      In (Add uuid now text) sampleOps /\ isEmpty (trim text) = false /\
      laterOf {| todo_id := uuid; todo_text := trim text;
                 todo_completed := false; todo_createdAt := now |}
              {| todo_id := "a"; todo_text := [120%N];
                 todo_completed := true; todo_createdAt := 1 |})).
Proof.
  assert (In {| todo_id := "a"; todo_text := [120%N];
                todo_completed := true; todo_createdAt := 1 |}
             (applyOps sampleOps [])) as I
    by (left; reflexivity).
  split; [ exact I | ].
  apply (todos_are_never_rewritten sampleOps [] _ I).
Defined.

Lemma ids_stay_distinct_witness :
  freshIds sampleOps [] /\
  NoDup (map todo_id ([] : list Todo)) /\
  NoDup (map todo_id (applyOps sampleOps [])).
Proof.
  assert (freshIds sampleOps []) as F.
  { cbn. repeat split; try tauto. intros [ E | [] ]. discriminate E. }
  assert (NoDup (map todo_id ([] : list Todo))) as N by constructor.
  split; [ exact F | ].
  split; [ exact N | ].
  apply (ids_stay_distinct sampleOps [] F N).
Defined.


Lemma complete_is_terminal_through_the_component_witness :
  isComplete (m_hook (fst (lifetime sampleProps sampleLifetime))) = true /\
  dialogStage (state (m_hook (fst (lifetime sampleProps sampleLifetime)))) = 0 /\
  currentMessage (m_hook (fst (lifetime sampleProps sampleLifetime))) = None /\
  forall p' e, e <> ResetPosition ->
    uiStep p' (m_hook (fst (lifetime sampleProps sampleLifetime))) e
      = m_hook (fst (lifetime sampleProps sampleLifetime)).
Proof.
  split; [ reflexivity | ].
  apply (complete_is_terminal_through_the_component sampleProps sampleLifetime).
  reflexivity.
Defined.
